(** * Face Lookup DataBase (fldb.py): a shallow embedding and its properties

    The Python module keeps three dictionaries (persons, images, faces) in
    one [FLDB] object and three kinds of mutable objects ([Person], [Image],
    [Face]) that refer to each other.  The embedding keeps
    - the objects in three heaps addressed by references, so that aliasing
      and in-place mutation are visible;
    - the dictionaries as insertion-ordered association lists, as Python
      dictionaries are;
    - the values exchanged with the recognition backend as untyped Python
      values ([pyval]), with the run-time errors of subscripting, iteration
      and hashing;
    - exceptions as an outcome next to the state: what a method did before
      it raised stays done;
    - the backend (the [rekog] client) as a function from the calls made so
      far and the present call to a response; every call is logged.

    Python floats are modelled by exact rationals ([Q]). *)

From Stdlib Require Import String List QArith Bool Lia Sorted.
From stdpp Require Import base option list.
Import ListNotations.

Local Open Scope string_scope.
Local Open Scope list_scope.
Set Warnings "-register-all,-notation-for-abbreviation".

(** ** Python values *)

Inductive pyval : Type :=
| VNone
| VStr (s : string)
| VNum (q : Q)
| VList (l : list pyval)
| VDict (d : list (string * pyval)).

Inductive exn : Type :=
| KeyError (k : pyval)
| TypeError (msg : string)
| AttributeError (ty attr : string)
| AssertionError
| ZeroDivisionError
| CollaboratorError (msg : string)
| NoSuchObject.

Inductive outcome (A : Type) : Type :=
| Ret (a : A)
| Raise (e : exn).
Arguments Ret {A} a.
Arguments Raise {A} e.

(** [bool(v)] *)
Definition truthy (v : pyval) : bool :=
  match v with
  | VNone => false
  | VStr s => negb (String.eqb s "")
  | VNum q => negb (Qeq_bool q 0)
  | VList l => match l with [] => false | _ => true end
  | VDict d => match d with [] => false | _ => true end
  end.

Fixpoint assoc (k : string) (d : list (string * pyval)) : option pyval :=
  match d with
  | [] => None
  | (k', v) :: d' => if String.eqb k' k then Some v else assoc k d'
  end.

(** [v[k]] for a string key [k] *)
Definition subscript (v : pyval) (k : string) : outcome pyval :=
  match v with
  | VDict d => match assoc k d with
               | Some x => Ret x
               | None => Raise (KeyError (VStr k))
               end
  | VStr _ => Raise (TypeError "string indices must be integers")
  | VList _ => Raise (TypeError "list indices must be integers")
  | VNum _ => Raise (TypeError "object is not subscriptable")
  | VNone => Raise (TypeError "object is not subscriptable")
  end.

Fixpoint chars (s : string) : list pyval :=
  match s with
  | EmptyString => []
  | String c s' => VStr (String c EmptyString) :: chars s'
  end.

(** [iter(v)]: a list gives its items, a dictionary its keys, a string its
    characters *)
Definition py_iter (v : pyval) : outcome (list pyval) :=
  match v with
  | VList l => Ret l
  | VDict d => Ret (map (fun kv => VStr (fst kv)) d)
  | VStr s => Ret (chars s)
  | VNum _ => Raise (TypeError "object is not iterable")
  | VNone => Raise (TypeError "object is not iterable")
  end.

(** [v / 100.0] *)
Definition div100 (v : pyval) : outcome Q :=
  match v with
  | VNum q => Ret (q / 100)%Q
  | _ => Raise (TypeError "unsupported operand type(s) for /")
  end.

(** ** Dictionaries: insertion-ordered, keyed by hashable values *)

Definition hashable (v : pyval) : bool :=
  match v with
  | VNone | VStr _ | VNum _ => true
  | VList _ | VDict _ => false
  end.

Definition key_eqb (a b : pyval) : bool :=
  match a, b with
  | VNone, VNone => true
  | VStr s, VStr t => String.eqb s t
  | VNum p, VNum q => Qeq_bool p q
  | _, _ => false
  end.

Definition odict (V : Type) : Type := list (pyval * V).

Fixpoint od_get {V} (k : pyval) (d : odict V) : option V :=
  match d with
  | [] => None
  | (k', v) :: d' => if key_eqb k' k then Some v else od_get k d'
  end.

Definition od_mem {V} (k : pyval) (d : odict V) : bool :=
  match od_get k d with Some _ => true | None => false end.

(** [d[k] = v]: an existing key keeps its place, a new key goes last *)
Fixpoint od_set {V} (k : pyval) (v : V) (d : odict V) : odict V :=
  match d with
  | [] => [(k, v)]
  | (k', v') :: d' =>
      if key_eqb k' k then (k', v) :: d' else (k', v') :: od_set k v d'
  end.

Definition od_keys {V} (d : odict V) : list pyval := map fst d.
Definition od_values {V} (d : odict V) : list V := map snd d.

(** [d.update(e)] *)
Definition od_update {V} (d e : odict V) : odict V :=
  fold_left (fun acc kv => od_set (fst kv) (snd kv) acc) e d.

(** ** Objects and state *)

(** references to Person, Image and Face objects: places in the heaps *)
Notation pref := nat (only parsing).
Notation iref := nat (only parsing).
Notation fref := nat (only parsing).

Record Person : Type := mkPerson {
  person_name : pyval;
  person_faces : list fref
}.

Record Image : Type := mkImage {
  image_url : pyval;
  image_faces : option (list fref)
}.

Record Face : Type := mkFace {
  face_fid : pyval;
  face_fulldata : pyval;
  face_image : iref;
  face_similar : option (list (fref * Q));
  face_person : option pref
}.

(** a call to the backend: the method and its keyword arguments *)
Definition request : Type := string * list (string * pyval).

Record state : Type := mkState {
  heap_persons : list Person;
  heap_images : list Image;
  heap_faces : list Face;
  db_persons : odict pref;
  db_images : odict iref;
  db_faces : odict fref;
  calls : list request
}.

Definition empty_state : state := mkState [] [] [] [] [] [] [].

Definition with_heap_persons (h : list Person) (s : state) : state :=
  mkState h (heap_images s) (heap_faces s) (db_persons s) (db_images s) (db_faces s) (calls s).
Definition with_heap_images (h : list Image) (s : state) : state :=
  mkState (heap_persons s) h (heap_faces s) (db_persons s) (db_images s) (db_faces s) (calls s).
Definition with_heap_faces (h : list Face) (s : state) : state :=
  mkState (heap_persons s) (heap_images s) h (db_persons s) (db_images s) (db_faces s) (calls s).
Definition with_db_persons (d : odict pref) (s : state) : state :=
  mkState (heap_persons s) (heap_images s) (heap_faces s) d (db_images s) (db_faces s) (calls s).
Definition with_db_images (d : odict iref) (s : state) : state :=
  mkState (heap_persons s) (heap_images s) (heap_faces s) (db_persons s) d (db_faces s) (calls s).
Definition with_db_faces (d : odict fref) (s : state) : state :=
  mkState (heap_persons s) (heap_images s) (heap_faces s) (db_persons s) (db_images s) d (calls s).
Definition with_calls (c : list request) (s : state) : state :=
  mkState (heap_persons s) (heap_images s) (heap_faces s) (db_persons s) (db_images s) (db_faces s) c.

(** ** The monad of methods: state and exceptions *)

Definition M (A : Type) : Type := state -> outcome A * state.

Definition ret {A} (a : A) : M A := fun s => (Ret a, s).
Definition raise {A} (e : exn) : M A := fun s => (Raise e, s).
Definition bind {A B} (m : M A) (k : A -> M B) : M B :=
  fun s => match m s with
           | (Ret a, s') => k a s'
           | (Raise e, s') => (Raise e, s')
           end.
Definition lift {A} (o : outcome A) : M A := fun s => (o, s).
Definition read {A} (f : state -> A) : M A := fun s => (Ret (f s), s).
Definition modify (f : state -> state) : M unit := fun s => (Ret tt, f s).

Declare Scope py_scope.
Delimit Scope py_scope with py.
Notation "x <- m ;; k" := (bind m (fun x => k))
  (at level 100, m at next level, right associativity) : py_scope.
Notation "m ;;; k" := (bind m (fun _ => k))
  (at level 100, right associativity) : py_scope.
Local Open Scope py_scope.

Fixpoint mapM {A B} (f : A -> M B) (l : list A) : M (list B) :=
  match l with
  | [] => ret []
  | x :: l' => y <- f x ;; ys <- mapM f l' ;; ret (y :: ys)
  end.

Fixpoint foldM {A B} (f : B -> A -> M B) (acc : B) (l : list A) : M B :=
  match l with
  | [] => ret acc
  | x :: l' => acc' <- f acc x ;; foldM f acc' l'
  end.

Fixpoint filterM {A} (p : A -> M bool) (l : list A) : M (list A) :=
  match l with
  | [] => ret []
  | x :: l' => b <- p x ;; r <- filterM p l' ;; ret (if b then x :: r else r)
  end.

Fixpoint forM_ {A} (f : A -> M unit) (l : list A) : M unit :=
  match l with
  | [] => ret tt
  | x :: l' => f x ;;; forM_ f l'
  end.

(** ** Heap access *)

Definition deref {A} (h : state -> list A) (r : nat) : M A :=
  fun s => match h s !! r with
           | Some o => (Ret o, s)
           | None => (Raise NoSuchObject, s)
           end.

Definition new_person (o : Person) : M pref :=
  fun s => (Ret (length (heap_persons s)),
            with_heap_persons (heap_persons s ++ [o]) s).
Definition new_image (o : Image) : M iref :=
  fun s => (Ret (length (heap_images s)),
            with_heap_images (heap_images s ++ [o]) s).
Definition new_face (o : Face) : M fref :=
  fun s => (Ret (length (heap_faces s)),
            with_heap_faces (heap_faces s ++ [o]) s).

Definition update_person (p : pref) (f : Person -> Person) : M unit :=
  o <- deref heap_persons p ;;
  modify (fun s => with_heap_persons (<[p := f o]> (heap_persons s)) s).
Definition update_image (i : iref) (f : Image -> Image) : M unit :=
  o <- deref heap_images i ;;
  modify (fun s => with_heap_images (<[i := f o]> (heap_images s)) s).
Definition update_face (x : fref) (f : Face -> Face) : M unit :=
  o <- deref heap_faces x ;;
  modify (fun s => with_heap_faces (<[x := f o]> (heap_faces s)) s).

(** ** Dictionary operations that can raise *)

Definition unhashable : exn := TypeError "unhashable type".

(** [k in d] *)
Definition py_contains {V} (k : pyval) (d : odict V) : M bool :=
  if hashable k then ret (od_mem k d) else raise unhashable.

(** [d[k]] *)
Definition py_getitem {V} (k : pyval) (d : odict V) : M V :=
  if hashable k then
    match od_get k d with
    | Some v => ret v
    | None => raise (KeyError k)
    end
  else raise unhashable.

(** [d[k] = v], giving the dictionary after the assignment *)
Definition py_setitem {V} (k : pyval) (v : V) (d : odict V) : M (odict V) :=
  if hashable k then ret (od_set k v d) else raise unhashable.

(** [d.get(k, default)] *)
Definition py_get {V} (k : pyval) (default : V) (d : odict V) : M V :=
  if hashable k then
    ret (match od_get k d with Some v => v | None => default end)
  else raise unhashable.

(** [{key(x): value(x) for x in l}] *)
Definition dict_comp {A V} (key : A -> M pyval) (value : A -> M V)
    (l : list A) : M (odict V) :=
  foldM (fun acc x => k <- key x ;; v <- value x ;; py_setitem k v acc) [] l.

(** ** Sorting: [sorted(l, key=lambda x: x[1], reverse=True)], stable *)

Fixpoint insert_desc {A} (x : A * Q) (l : list (A * Q)) : list (A * Q) :=
  match l with
  | [] => [x]
  | y :: l' =>
      if Qle_bool (snd y) (snd x) then x :: y :: l'
      else y :: insert_desc x l'
  end.

Definition sorted_desc {A} (l : list (A * Q)) : list (A * Q) :=
  fold_right insert_desc [] l.

(** [[body(x) for x in l if cond(x)]]: the condition and the body of one
    item run before the next item is looked at *)
Fixpoint list_comp {A B} (cond : A -> M bool) (body : A -> M B)
    (l : list A) : M (list B) :=
  match l with
  | [] => ret []
  | x :: l' =>
      b <- cond x ;;
      if b then y <- body x ;; ys <- list_comp cond body l' ;; ret (y :: ys)
      else list_comp cond body l'
  end.

(** ** The program *)

Section Program.

(** The backend client, the collection and the bucket given to
    [FLDB.__init__]. *)
Variable rekog : list request -> request -> outcome pyval.
Variables coll bucket : pyval.

(** a call of a method of [self.rekog] with keyword arguments *)
Definition call_rekog (method : string) (kwargs : list (string * pyval))
    : M pyval :=
  fun s => (rekog (calls s) (method, kwargs),
            with_calls (calls s ++ [(method, kwargs)]) s).

(** [Person.__init__] *)
Definition Person_init (name : pyval) : M pref :=
  new_person (mkPerson name []).

(** [Image.__init__] *)
Definition Image_init (url : pyval) : M iref :=
  new_image (mkImage url None).

Definition FLDB_add_person (name : pyval) : M pref :=
  present <- (d <- read db_persons ;; py_contains name d) ;;
  if present then raise AssertionError else
  person <- Person_init name ;;
  (d <- read db_persons ;; d' <- py_setitem name person d ;;
   modify (with_db_persons d')) ;;;
  ret person.

Definition FLDB_get_person (name : pyval) (create : bool) : M pref :=
  absent <- (if create
             then d <- read db_persons ;; b <- py_contains name d ;;
                  ret (negb b)
             else ret false) ;;
  if absent then FLDB_add_person name
  else d <- read db_persons ;; py_getitem name d.

(** [FLDB.add_image], with the method [Image.get_faces] it calls when
    [index] is set left open; [FLDB_add_image] below closes it. *)
Definition FLDB_add_image_ (Image_get_faces : iref -> M (list fref))
    (url : pyval) (index : bool) : M iref :=
  present <- (d <- read db_images ;; py_contains url d) ;;
  if present then raise AssertionError else
  image <- Image_init url ;;
  (d <- read db_images ;; d' <- py_setitem url image d ;;
   modify (with_db_images d')) ;;;
  (if index then
     fs <- Image_get_faces image ;;
     upd <- dict_comp (fun x => o <- deref heap_faces x ;; ret (face_fid o))
                      ret fs ;;
     modify (fun s => with_db_faces (od_update (db_faces s) upd) s)
   else ret tt) ;;;
  ret image.

(** [get_image] calls [add_image] with [index=False], where
    [Image.get_faces] is not reached. *)
Definition FLDB_get_image (url : pyval) (create : bool) : M iref :=
  absent <- (if create
             then d <- read db_images ;; b <- py_contains url d ;;
                  ret (negb b)
             else ret false) ;;
  if absent then FLDB_add_image_ (fun _ => ret []) url false
  else d <- read db_images ;; py_getitem url d.

(** [Face.__init__(db, fulldata, image=None)] *)
Definition Face_init (fulldata : pyval) (image : option iref) : M fref :=
  fid <- lift (match subscript fulldata "Face" with
               | Ret fc => subscript fc "FaceId"
               | Raise e => Raise e
               end) ;;
  img <- match image with
         | Some i => ret i
         | None =>
             fc <- lift (subscript fulldata "Face") ;;
             ext <- lift (subscript fc "ExternalImageId") ;;
             FLDB_get_image ext true
         end ;;
  new_face (mkFace fid fulldata img None None).

Definition FLDB_get_face (fid data : pyval) (create : bool) : M fref :=
  fid <- (if negb (truthy fid) then lift (subscript data "FaceId")
          else ret fid) ;;
  missing <- (if create && truthy data
              then d <- read db_faces ;; b <- py_contains fid d ;;
                   ret (negb b)
              else ret false) ;;
  (if missing then
     face <- Face_init data None ;;
     d <- read db_faces ;; d' <- py_setitem fid face d ;;
     modify (with_db_faces d')
   else ret tt) ;;;
  d <- read db_faces ;; py_getitem fid d.

Definition FLDB_list_faces (refresh : bool) : M (list pyval) :=
  (if refresh then
     resp <- call_rekog "list_faces" [("CollectionId", coll)] ;;
     items <- lift (py_iter resp) ;;
     d <- dict_comp (fun x => lift (subscript x "FaceId"))
                    (fun x => Face_init x None) items ;;
     modify (with_db_faces d)
   else ret tt) ;;;
  d <- read db_faces ;; ret (od_keys d).

Definition FLDB_list_images : M (list pyval) :=
  d <- read db_images ;; ret (od_keys d).

Definition FLDB_list_persons : M (list pyval) :=
  d <- read db_persons ;; ret (od_keys d).

Definition FLDB_create_all : M pyval :=
  resp <- call_rekog "create_collection" [("CollectionId", coll)] ;;
  lift (subscript resp "CollectionArn").

Definition FLDB_delete_all : M unit :=
  _ <- call_rekog "delete_collection" [("CollectionId", coll)] ;;
  ret tt.

Definition FLDB_export_db : M unit := ret tt.
Definition FLDB_import_db (initial_data : pyval) : M unit := ret tt.

(** [FLDB.__init__] *)
Definition FLDB_init (create : bool) (initial_data : pyval) : M unit :=
  (if create then _ <- FLDB_create_all ;; ret tt else ret tt) ;;;
  modify (with_db_persons []) ;;;
  modify (with_db_images []) ;;;
  modify (with_db_faces []) ;;;
  (if truthy initial_data then FLDB_import_db initial_data else ret tt).

Definition FLDB__index_faces (url : pyval) : M pyval :=
  resp <- call_rekog "index_faces"
            [("CollectionId", coll);
             ("Image", VDict [("S3Object",
                               VDict [("Bucket", bucket); ("Name", url)])]);
             ("DetectionAttributes", VList [VStr "ALL"]);
             ("ExtermalImageId", url)] ;;
  lift (subscript resp "FaceRecords").

Definition FLDB_index_faces (image : iref) : M (list fref) :=
  im <- deref heap_images image ;;
  recs <- FLDB__index_faces (image_url im) ;;
  items <- lift (py_iter recs) ;;
  mapM (fun x => Face_init x None) items.

Definition FLDB__search_faces (fid : pyval) : M pyval :=
  resp <- call_rekog "search_faces"
            [("CollectionId", coll); ("FaceId", fid)] ;;
  lift (subscript resp "FaceMatches").

Definition FLDB_search_faces (face : fref) : M (list (fref * Q)) :=
  fo <- deref heap_faces face ;;
  ms <- FLDB__search_faces (face_fid fo) ;;
  items <- lift (py_iter ms) ;;
  mapM (fun x =>
          data <- lift (subscript x "Face") ;;
          f <- FLDB_get_face VNone data true ;;
          raw <- lift (subscript x "Similarity") ;;
          sim <- lift (div100 raw) ;;
          ret (f, sim)) items.

Definition Image_get_url (image : iref) : M pyval :=
  im <- deref heap_images image ;; ret (image_url im).

(** [if self.faces:] is a truth test: [None] and the empty list both
    fail it. *)
Definition Image_get_faces (image : iref) : M (list fref) :=
  im <- deref heap_images image ;;
  match image_faces im with
  | Some (x :: l) => ret (x :: l)
  | _ =>
      fs <- FLDB_index_faces image ;;
      update_image image (fun o => mkImage (image_url o) (Some fs)) ;;;
      ret fs
  end.

Definition FLDB_add_image : pyval -> bool -> M iref :=
  FLDB_add_image_ Image_get_faces.

(** [if refresh or self.similar is None:] *)
Definition Face_get_similar (face : fref) (refresh : bool)
    : M (list (fref * Q)) :=
  fo <- deref heap_faces face ;;
  match refresh, face_similar fo with
  | false, Some l => ret l
  | _, _ =>
      r <- FLDB_search_faces face ;;
      update_face face
        (fun o => mkFace (face_fid o) (face_fulldata o) (face_image o)
                         (Some r) (face_person o)) ;;;
      ret r
  end.

Definition Face_get_image (face : fref) : M iref :=
  fo <- deref heap_faces face ;; ret (face_image fo).

Definition Face__set_person (face : fref) (person : pref) : M unit :=
  update_face face
    (fun o => mkFace (face_fid o) (face_fulldata o) (face_image o)
                     (face_similar o) (Some person)).

Definition Person__add_face (person : pref) (face : fref) : M unit :=
  update_person person
    (fun o => mkPerson (person_name o) (person_faces o ++ [face])).

Definition Face_set_person (face : fref) (person : pref) : M unit :=
  Face__set_person face person ;;;
  Person__add_face person face.

(** The filter of the comprehension reads [x[0].persom]; a Face has the
    attributes fid, fulldata, db, image, similar and person. *)
Definition Face_get_person (face : fref) : M (list (option pref * Q)) :=
  fo <- deref heap_faces face ;;
  match face_person fo with
  | Some p => ret [(Some p, 1%Q)]
  | None =>
      sims <- Face_get_similar face false ;;
      list_comp (fun x => raise (AttributeError "Face" "persom"))
                (fun x => o <- deref heap_faces (fst x) ;;
                          ret (face_person o, snd x))
                sims
  end.

Definition Person_add_face (person : pref) (face : fref) : M unit :=
  Person__add_face person face ;;;
  Face__set_person face person.

(** The [if guess:] block of [Person.get_faces] (lines 163-172), giving
    the dictionary [faces] it leaves.  In the filter and in the assignment
    [x] and [sim] are the (Face, similarity) tuples of the similarity
    list, and a tuple has no attribute [person] or [fid]; the last loop
    rebinds its loop variable and stores nothing. *)
Definition Person_get_faces_guess (person : pref) (refresh : bool)
    : M (odict (fref * Q)) :=
  po <- deref heap_persons person ;;
  faces <- foldM (fun faces confirmed =>
             sims <- Face_get_similar confirmed refresh ;;
             similar <- list_comp
                          (fun x => raise (AttributeError "tuple" "person"))
                          ret sims ;;
             foldM (fun faces (sim : fref * Q) =>
                      o <- deref heap_faces (fst sim) ;;
                      old <- py_get (face_fid o) (fst sim, 0%Q) faces ;;
                      k <- raise (AttributeError "tuple" "fid") ;;
                      py_setitem k (fst old, (snd old + snd sim)%Q) faces)
                   faces similar)
           [] (person_faces po) ;;
  forM_ (fun thisguess : fref * Q =>
           po' <- deref heap_persons person ;;
           match length (person_faces po') with
           | O => raise ZeroDivisionError
           | S _ => ret tt
           end)
        (od_values faces) ;;;
  ret faces.

Definition Person_get_faces (person : pref) (guess refresh : bool)
    : M (list (fref * Q)) :=
  faces <- (if guess then Person_get_faces_guess person refresh
            else ret []) ;;
  po <- deref heap_persons person ;;
  known <- dict_comp (fun x => o <- deref heap_faces x ;; ret (face_fid o))
                     (fun x => ret (x, 1%Q)) (person_faces po) ;;
  ret (sorted_desc (od_values (od_update faces known))).

(** ** Calls and runs *)

Inductive call : Type :=
| CAddPerson (name : pyval)
| CGetPerson (name : pyval) (create : bool)
| CAddImage (url : pyval) (index : bool)
| CGetImage (url : pyval) (create : bool)
| CGetFace (fid data : pyval) (create : bool)
| CListFaces (refresh : bool)
| CListImages
| CListPersons
| CCreateAll
| CDeleteAll
| CIndexFaces (image : iref)
| CSearchFaces (face : fref)
| CImageGetFaces (image : iref)
| CFaceGetSimilar (face : fref) (refresh : bool)
| CFaceSetPerson (face : fref) (person : pref)
| CFaceGetPerson (face : fref)
| CPersonAddFace (person : pref) (face : fref)
| CPersonGetFaces (person : pref) (guess refresh : bool).

(** the state a call leaves, whether it returns or raises *)
Definition exec (c : call) (s : state) : state :=
  match c with
  | CAddPerson name => snd (FLDB_add_person name s)
  | CGetPerson name create => snd (FLDB_get_person name create s)
  | CAddImage url index => snd (FLDB_add_image url index s)
  | CGetImage url create => snd (FLDB_get_image url create s)
  | CGetFace fid data create => snd (FLDB_get_face fid data create s)
  | CListFaces refresh => snd (FLDB_list_faces refresh s)
  | CListImages => snd (FLDB_list_images s)
  | CListPersons => snd (FLDB_list_persons s)
  | CCreateAll => snd (FLDB_create_all s)
  | CDeleteAll => snd (FLDB_delete_all s)
  | CIndexFaces image => snd (FLDB_index_faces image s)
  | CSearchFaces face => snd (FLDB_search_faces face s)
  | CImageGetFaces image => snd (Image_get_faces image s)
  | CFaceGetSimilar face refresh => snd (Face_get_similar face refresh s)
  | CFaceSetPerson face person => snd (Face_set_person face person s)
  | CFaceGetPerson face => snd (Face_get_person face s)
  | CPersonAddFace person face => snd (Person_add_face person face s)
  | CPersonGetFaces person guess refresh =>
      snd (Person_get_faces person guess refresh s)
  end.

(** the objects a call is given exist *)
Definition valid_call (s : state) (c : call) : Prop :=
  match c with
  | CIndexFaces image | CImageGetFaces image =>
      image < length (heap_images s)
  | CSearchFaces face | CFaceGetSimilar face _ | CFaceGetPerson face =>
      face < length (heap_faces s)
  | CFaceSetPerson face person | CPersonAddFace person face =>
      face < length (heap_faces s) /\ person < length (heap_persons s)
  | CPersonGetFaces person _ _ => person < length (heap_persons s)
  | _ => True
  end.

(** the states of a database made by [FLDB(rekog, coll, bucket)] and
    used through its methods and those of its objects *)
Inductive reachable : state -> Prop :=
| reach_init create initial_data :
    reachable (snd (FLDB_init create initial_data empty_state))
| reach_call s c : reachable s -> valid_call s c -> reachable (exec c s).

End Program.

Arguments call_rekog rekog method kwargs s : rename.

(** [run cs s]: the state after the calls [cs], made in order from [s] *)
Definition run (rekog : list request -> request -> outcome pyval)
    (coll bucket : pyval) (cs : list call) (s : state) : state :=
  fold_left (fun s c => exec rekog coll bucket c s) cs s.


(** ** A backend for examples

    Responses have the shapes of the recognition service: a detection gives
    [{'FaceRecords': [{'Face': {...}, 'FaceDetail': {...}}, ...]}], a search
    [{'FaceMatches': [{'Similarity': n, 'Face': {...}}, ...]}] with [n]
    between 0 and 100, a listing [{'Faces': [{...}, ...], 'NextToken': t}],
    the token being absent on the last page. *)

Definition ex_face (fid url : string) : pyval :=
  VDict [("FaceId", VStr fid); ("ExternalImageId", VStr url)].

Definition ex_record (fid url : string) : pyval :=
  VDict [("Face", ex_face fid url); ("FaceDetail", VDict [])].

Definition ex_match (fid url : string) (similarity : Q) : pyval :=
  VDict [("Similarity", VNum similarity); ("Face", ex_face fid url)].

Definition kwarg (k : string) (r : request) : pyval :=
  match assoc k (snd r) with Some v => v | None => VNone end.

(** the name of the stored object a detection request points at *)
Definition req_image_name (r : request) : pyval :=
  match subscript (kwarg "Image" r) "S3Object" with
  | Ret o => match subscript o "Name" with Ret n => n | Raise _ => VNone end
  | Raise _ => VNone
  end.

(** - "group.jpg" shows the faces A, B and C, "solo.jpg" the face D,
      "empty.jpg" no face; "late.jpg" shows no face at the first detection
      and the face E from the second on;
    - C matches A at 80 and B at 60; an unseen face Z matches D at 90;
    - the collection is listed in two pages, A and B, then C. *)
Definition ex_rekog (log : list request) (r : request) : outcome pyval :=
  let method m := String.eqb (fst r) m in
  let name := req_image_name r in
  let fid := kwarg "FaceId" r in
  if method "index_faces" then
    Ret (VDict [("FaceRecords", VList (
      if key_eqb name (VStr "group.jpg") then
        [ex_record "A" "group.jpg"; ex_record "B" "group.jpg";
         ex_record "C" "group.jpg"]
      else if key_eqb name (VStr "solo.jpg") then [ex_record "D" "solo.jpg"]
      else if key_eqb name (VStr "late.jpg") then
        if existsb (fun r' => String.eqb (fst r') "index_faces"
                              && key_eqb (req_image_name r') name) log
        then [ex_record "E" "late.jpg"] else []
      else []))])
  else if method "search_faces" then
    Ret (VDict [("FaceMatches", VList (
      if key_eqb fid (VStr "A") then [ex_match "C" "group.jpg" 80]
      else if key_eqb fid (VStr "B") then [ex_match "C" "group.jpg" 60]
      else if key_eqb fid (VStr "D") then [ex_match "Z" "other.jpg" 90]
      else []))])
  else if method "list_faces" then
    match kwarg "NextToken" r with
    | VNone => Ret (VDict [("Faces", VList [ex_face "A" "group.jpg";
                                            ex_face "B" "group.jpg"]);
                           ("NextToken", VStr "page2")])
    | _ => Ret (VDict [("Faces", VList [ex_face "C" "group.jpg"])])
    end
  else if method "create_collection" then
    Ret (VDict [("CollectionArn", VStr "arn:collection")])
  else if method "delete_collection" then Ret (VDict [])
  else Raise (CollaboratorError "unknown operation").

Definition ex_coll : pyval := VStr "faces".
Definition ex_bucket : pyval := VStr "photos".

(** "group.jpg" is registered and indexed (faces 0, 1, 2 are A, B, C),
    the person alice (person 0) is registered *)
Definition ex_group : state :=
  run ex_rekog ex_coll ex_bucket
      [CAddImage (VStr "group.jpg") true; CAddPerson (VStr "alice")]
      empty_state.

(** ... and A and B are confirmed to be alice *)
Definition ex_two_confirmed : state :=
  run ex_rekog ex_coll ex_bucket
      [CFaceSetPerson 0 0; CFaceSetPerson 1 0] ex_group.

(** ... or instead C is confirmed to be alice, A and B being unconfirmed *)
Definition ex_candidate_confirmed : state :=
  run ex_rekog ex_coll ex_bucket [CFaceSetPerson 2 0] ex_group.

(** ... or bob (person 1) is registered too, C is confirmed to be alice
    and A to be bob *)
Definition ex_two_persons : state :=
  run ex_rekog ex_coll ex_bucket
      [CAddPerson (VStr "bob"); CFaceSetPerson 2 0; CFaceSetPerson 0 1]
      ex_group.

(** ... or bob is registered too and A is confirmed to be alice, then to
    be bob *)
Definition ex_reconfirmed : state :=
  run ex_rekog ex_coll ex_bucket
      [CAddPerson (VStr "bob"); CFaceSetPerson 0 0; CFaceSetPerson 0 1]
      ex_group.

(** "empty.jpg", "late.jpg", "solo.jpg": registered, the first two not
    indexed yet *)
Definition ex_empty_image : state :=
  run ex_rekog ex_coll ex_bucket [CAddImage (VStr "empty.jpg") false]
      empty_state.
Definition ex_late_image : state :=
  run ex_rekog ex_coll ex_bucket [CAddImage (VStr "late.jpg") false]
      empty_state.
Definition ex_solo : state :=
  run ex_rekog ex_coll ex_bucket [CAddImage (VStr "solo.jpg") true]
      empty_state.

(** ** Predicates of the properties *)

(** every run of [m], returning or raising, takes a state to one related
    to it by [R] *)
Definition preserves (R : state -> state -> Prop) {A} (m : M A) : Prop :=
  forall s, R s (snd (m s)).

(** the Face objects of [s] are in [s'] as they were *)
Definition faces_kept (s s' : state) : Prop :=
  forall f o, heap_faces s !! f = Some o -> heap_faces s' !! f = Some o.

(** the backend was not called between [s] and [s'] *)
Definition no_call (s s' : state) : Prop := calls s' = calls s.

(** the two sides of the confirmations: [face.person] of every Face and
    [person.faces] of every Person *)
Definition face_persons (s : state) : list (option pref) :=
  face_person <$> heap_faces s.
Definition person_face_lists (s : state) : list (list fref) :=
  person_faces <$> heap_persons s.

(** no confirmation between [s] and [s']: what is new is unconfirmed *)
Definition confirmations_kept (s s' : state) : Prop :=
  (exists n, face_persons s' = face_persons s ++ replicate n None) /\
  (exists m, person_face_lists s' = person_face_lists s ++ replicate m []).

(** [face.person == p] implies [face in p.faces] *)
Definition person_in_faces (s : state) : Prop :=
  forall f p, face_persons s !! f = Some (Some p) ->
    exists fs, person_face_lists s !! p = Some fs /\ In f fs.

(** [face in p.faces] implies that [face.person] is set, to a Person that
    has the Face in its list too *)
Definition faces_have_person (s : state) : Prop :=
  forall p fs f, person_face_lists s !! p = Some fs -> In f fs ->
    exists q fs', face_persons s !! f = Some (Some q) /\
                  person_face_lists s !! q = Some fs' /\ In f fs'.

(** the two sides after a confirmation of [f] to [p] *)
Definition confirmed (f p : nat) (s s' : state) : Prop :=
  exists old, person_face_lists s !! p = Some old /\
    face_persons s' = <[f := Some p]> (face_persons s) /\
    person_face_lists s' = <[p := old ++ [f]]> (person_face_lists s).

(** the two confirmation methods, [Face.set_person] and [Person.add_face] *)
Definition is_confirmation (c : call) : bool :=
  match c with
  | CFaceSetPerson _ _ | CPersonAddFace _ _ => true
  | _ => false
  end.

(** every call of [cs] is given objects that exist when it is made *)
Fixpoint valid_calls (rekog : list request -> request -> outcome pyval)
    (coll bucket : pyval) (s : state) (cs : list call) : Prop :=
  match cs with
  | [] => True
  | c :: cs' =>
      valid_call s c /\
      valid_calls rekog coll bucket (exec rekog coll bucket c s) cs'
  end.

(** the request of the search for the matches of a Face *)
Definition search_request (coll : pyval) (o : Face) : request :=
  ("search_faces", [("CollectionId", coll); ("FaceId", face_fid o)]).


(** sorted by score, best first *)
Definition sorted_by_score {A} (l : list (A * Q)) : Prop :=
  Sorted (fun a b => (snd b <= snd a)%Q) l.

(** the Image objects of [s] are in [s'] as they were *)
Definition images_kept (s s' : state) : Prop :=
  forall i o, heap_images s !! i = Some o -> heap_images s' !! i = Some o.

(** a face list once cached by an Image, and not empty, stays as it is *)
Definition image_cache_kept (s s' : state) : Prop :=
  forall i o x l, heap_images s !! i = Some o ->
    image_faces o = Some (x :: l) ->
    exists o', heap_images s' !! i = Some o' /\ image_faces o' = Some (x :: l).

(** every object of [s] is in [s'], with what it was made from: a Face its
    identifier, its record and its Image, an Image its path, a Person its
    name *)
Definition identity_kept (s s' : state) : Prop :=
  (forall f o, heap_faces s !! f = Some o ->
     exists o', heap_faces s' !! f = Some o' /\ face_fid o' = face_fid o /\
       face_fulldata o' = face_fulldata o /\ face_image o' = face_image o) /\
  (forall i o, heap_images s !! i = Some o ->
     exists o', heap_images s' !! i = Some o' /\ image_url o' = image_url o) /\
  (forall p o, heap_persons s !! p = Some o ->
     exists o', heap_persons s' !! p = Some o' /\
       person_name o' = person_name o).

(** no two keys of the dictionary are equal *)
Fixpoint od_wf {V} (d : odict V) : Prop :=
  match d with
  | [] => True
  | (k, _) :: d' =>
      (forall k', In k' (od_keys d') -> key_eqb k k' = false) /\ od_wf d'
  end.

(** the paths registered in [s] are registered in [s'], for the same
    Images *)
Definition registered_kept (s s' : state) : Prop :=
  forall k i, od_get k (db_images s) = Some i ->
    od_get k (db_images s') = Some i.

(** the request of the detection in the image stored at [url] *)
Definition index_request (coll bucket url : pyval) : request :=
  ("index_faces",
   [("CollectionId", coll);
    ("Image", VDict [("S3Object", VDict [("Bucket", bucket); ("Name", url)])]);
    ("DetectionAttributes", VList [VStr "ALL"]);
    ("ExtermalImageId", url)]).

(** [record['Face']['FaceId']], the identifier [Face.__init__] takes *)
Definition record_fid (record : pyval) : outcome pyval :=
  match subscript record "Face" with
  | Ret fc => subscript fc "FaceId"
  | Raise e => Raise e
  end.

(** [record['Face']['ExternalImageId']], the path [Face.__init__] looks
    the Image of the Face up with *)
Definition record_image (record : pyval) : outcome pyval :=
  match subscript record "Face" with
  | Ret fc => subscript fc "ExternalImageId"
  | Raise e => Raise e
  end.

(** the Face [f] is as [Face.__init__] makes it from a detection record:
    its identifier and the record, the Image registered under the path the
    record names, no similarity list, no Person *)
Definition made_from (s : state) (f : fref) (record : pyval) : Prop :=
  exists fid ext img,
    record_fid record = Ret fid /\ record_image record = Ret ext /\
    od_get ext (db_images s) = Some img /\
    heap_faces s !! f = Some (mkFace fid record img None None).

(** the request of the listing of the collection *)
Definition list_request (coll : pyval) : request :=
  ("list_faces", [("CollectionId", coll)]).


(** * Properties *)

(** ** Running a method *)

Lemma bind_Ret {A B} (m : M A) (k : A -> M B) s b s' :
  bind m k s = (Ret b, s') ->
  exists a s1, m s = (Ret a, s1) /\ k a s1 = (Ret b, s').
Proof.
  unfold bind. destruct (m s) as [[a|e] s1]; [eauto | discriminate].
Qed.

Lemma bind_run {A B} (m : M A) (k : A -> M B) s a s1 :
  m s = (Ret a, s1) -> bind m k s = k a s1.
Proof. unfold bind. intros ->. reflexivity. Qed.

Lemma bind_raise {A B} (m : M A) (k : A -> M B) s e s1 :
  m s = (Raise e, s1) -> bind m k s = (Raise e, s1).
Proof. unfold bind. intros ->. reflexivity. Qed.

(** ** Frames: what the methods leave alone *)

Section Frame.

Variable rekog : list request -> request -> outcome pyval.
Variables coll bucket : pyval.
Variable R : state -> state -> Prop.

Hypothesis R_refl : forall s, R s s.
Hypothesis R_trans : forall s1 s2 s3, R s1 s2 -> R s2 s3 -> R s1 s3.

Lemma preserves_ret {A} (a : A) : preserves R (ret a).
Proof. intros s. apply R_refl. Qed.

Lemma preserves_raise {A} e : preserves R (@raise A e).
Proof. intros s. apply R_refl. Qed.

Lemma preserves_lift {A} (o : outcome A) : preserves R (lift o).
Proof. intros s. apply R_refl. Qed.

Lemma preserves_read {A} (f : state -> A) : preserves R (read f).
Proof. intros s. apply R_refl. Qed.

Lemma preserves_deref {A} (h : state -> list A) r : preserves R (deref h r).
Proof. intros s. unfold deref. destruct (h s !! r); apply R_refl. Qed.

Lemma preserves_bind {A B} (m : M A) (k : A -> M B) :
  preserves R m -> (forall a, preserves R (k a)) -> preserves R (bind m k).
Proof.
  intros Hm Hk s. unfold bind. specialize (Hm s).
  destruct (m s) as [[a|e] s1]; simpl in *; [| exact Hm].
  eapply R_trans; [exact Hm | apply Hk].
Qed.

Lemma preserves_mapM {A B} (f : A -> M B) l :
  (forall x, preserves R (f x)) -> preserves R (mapM f l).
Proof.
  intros Hf. induction l as [|x l IH]; simpl.
  - apply preserves_ret.
  - apply preserves_bind; [apply Hf | intros y].
    apply preserves_bind; [exact IH | intros ys]. apply preserves_ret.
Qed.

Lemma preserves_foldM {A B} (f : B -> A -> M B) l :
  (forall acc x, preserves R (f acc x)) ->
  forall acc, preserves R (foldM f acc l).
Proof.
  intros Hf. induction l as [|x l IH]; intros acc; simpl.
  - apply preserves_ret.
  - apply preserves_bind; [apply Hf | intros acc']. apply IH.
Qed.

Lemma preserves_forM_ {A} (f : A -> M unit) l :
  (forall x, preserves R (f x)) -> preserves R (forM_ f l).
Proof.
  intros Hf. induction l as [|x l IH]; simpl.
  - apply preserves_ret.
  - apply preserves_bind; [apply Hf | intros _; exact IH].
Qed.

Lemma preserves_list_comp {A B} (cond : A -> M bool) (body : A -> M B) l :
  (forall x, preserves R (cond x)) -> (forall x, preserves R (body x)) ->
  preserves R (list_comp cond body l).
Proof.
  intros Hc Hb. induction l as [|x l IH]; simpl.
  - apply preserves_ret.
  - apply preserves_bind; [apply Hc | intros [|]]; [| exact IH].
    apply preserves_bind; [apply Hb | intros y].
    apply preserves_bind; [exact IH | intros ys]. apply preserves_ret.
Qed.

Lemma preserves_py_contains {V} k (d : odict V) :
  preserves R (py_contains k d).
Proof.
  unfold py_contains. destruct (hashable k);
    [apply preserves_ret | apply preserves_raise].
Qed.

Lemma preserves_py_getitem {V} k (d : odict V) :
  preserves R (py_getitem k d).
Proof.
  unfold py_getitem. destruct (hashable k); [| apply preserves_raise].
  destruct (od_get k d); [apply preserves_ret | apply preserves_raise].
Qed.

Lemma preserves_py_setitem {V} k (v : V) d : preserves R (py_setitem k v d).
Proof.
  unfold py_setitem. destruct (hashable k);
    [apply preserves_ret | apply preserves_raise].
Qed.

Lemma preserves_py_get {V} k (v : V) d : preserves R (py_get k v d).
Proof.
  unfold py_get. destruct (hashable k);
    [apply preserves_ret | apply preserves_raise].
Qed.

Lemma preserves_dict_comp {A V} (key : A -> M pyval) (value : A -> M V) l :
  (forall x, preserves R (key x)) -> (forall x, preserves R (value x)) ->
  preserves R (dict_comp key value l).
Proof.
  intros Hk Hv. unfold dict_comp. apply preserves_foldM. intros acc x.
  apply preserves_bind; [apply Hk | intros k].
  apply preserves_bind; [apply Hv | intros v]. apply preserves_py_setitem.
Qed.

End Frame.

Ltac frame_step :=
  lazymatch goal with
  | |- forall _, _ => intro
  | |- preserves _ (ret _) => apply preserves_ret
  | |- preserves _ (raise _) => apply preserves_raise
  | |- preserves _ (lift _) => apply preserves_lift
  | |- preserves _ (read _) => apply preserves_read
  | |- preserves _ (deref _ _) => apply preserves_deref
  | |- preserves _ (py_contains _ _) => apply preserves_py_contains
  | |- preserves _ (py_getitem _ _) => apply preserves_py_getitem
  | |- preserves _ (py_setitem _ _ _) => apply preserves_py_setitem
  | |- preserves _ (py_get _ _ _) => apply preserves_py_get
  | |- preserves _ (bind _ _) => apply preserves_bind
  | |- preserves _ (mapM _ _) => apply preserves_mapM
  | |- preserves _ (foldM _ _ _) => apply preserves_foldM
  | |- preserves _ (forM_ _ _) => apply preserves_forM_
  | |- preserves _ (list_comp _ _ _) => apply preserves_list_comp
  | |- preserves _ (dict_comp _ _ _) => apply preserves_dict_comp
  | |- preserves _ (if ?b then _ else _) => destruct b
  | |- preserves _ (match ?x with _ => _ end) => destruct x
  end.

(** case analysis on the heap lookup of a dereference *)
Ltac case_lookup o E :=
  match goal with
  | |- context [match ?x with Some _ => _ | None => _ end] =>
      destruct x as [o|] eqn:E
  end.

(** [frame] splits a method into its steps; what is left are the steps
    that change the state and the calls of other methods. *)
Ltac frame := repeat first [assumption | frame_step].

(** the same outside a section, [order] giving reflexivity and
    transitivity of the relation *)
Ltac frame_with order := repeat first [assumption | order | frame_step].

(** The methods of the database, under a relation that the steps they are
    made of respect. *)
Section FrameMethods.

Variable rekog : list request -> request -> outcome pyval.
Variables coll bucket : pyval.
Variable R : state -> state -> Prop.

Hypothesis R_refl : forall s, R s s.
Hypothesis R_trans : forall s1 s2 s3, R s1 s2 -> R s2 s3 -> R s1 s3.
Hypothesis R_db_persons : forall s d, R s (with_db_persons d s).
Hypothesis R_db_images : forall s d, R s (with_db_images d s).
Hypothesis R_db_faces : forall s d, R s (with_db_faces d s).
Hypothesis R_new_person :
  forall s name, R s (with_heap_persons (heap_persons s ++ [mkPerson name []]) s).
Hypothesis R_new_image :
  forall s url, R s (with_heap_images (heap_images s ++ [mkImage url None]) s).
Hypothesis R_new_face :
  forall s fid fulldata image,
    R s (with_heap_faces
           (heap_faces s ++ [mkFace fid fulldata image None None]) s).
Hypothesis R_image_faces :
  forall s i o fs, heap_images s !! i = Some o ->
    R s (with_heap_images
           (<[i := mkImage (image_url o) (Some fs)]> (heap_images s)) s).
Hypothesis R_call : forall s c, R s (with_calls c s).

Lemma FLDB_add_person_preserves name : preserves R (FLDB_add_person name).
Proof.
  unfold FLDB_add_person, Person_init. frame.
  - intros s. apply R_new_person.
  - intros s. apply R_db_persons.
Qed.

Lemma FLDB_get_person_preserves name create :
  preserves R (FLDB_get_person name create).
Proof.
  unfold FLDB_get_person. frame; apply FLDB_add_person_preserves.
Qed.

Lemma FLDB_add_image__preserves get_faces url index :
  (forall i, preserves R (get_faces i)) ->
  preserves R (FLDB_add_image_ get_faces url index).
Proof.
  intros Hg. unfold FLDB_add_image_, Image_init. frame; try apply Hg.
  - intros s. apply R_new_image.
  - intros s. apply R_db_images.
  - intros s. apply R_db_faces.
Qed.

Lemma FLDB_get_image_preserves url create :
  preserves R (FLDB_get_image url create).
Proof.
  unfold FLDB_get_image. frame.
  apply FLDB_add_image__preserves. frame.
Qed.

Lemma Face_init_preserves fulldata image :
  preserves R (Face_init fulldata image).
Proof.
  unfold Face_init. frame; try apply FLDB_get_image_preserves.
  all: intros s; apply R_new_face.
Qed.

Lemma FLDB_get_face_preserves fid data create :
  preserves R (FLDB_get_face fid data create).
Proof.
  unfold FLDB_get_face. frame; try apply Face_init_preserves.
  all: intros s; apply R_db_faces.
Qed.

Lemma call_rekog_preserves method kwargs :
  preserves R (call_rekog rekog method kwargs).
Proof. intros s. apply R_call. Qed.

Lemma FLDB_list_faces_preserves refresh :
  preserves R (FLDB_list_faces rekog coll refresh).
Proof.
  unfold FLDB_list_faces. frame;
    try apply call_rekog_preserves; try apply Face_init_preserves.
  intros s. apply R_db_faces.
Qed.

Lemma FLDB_create_all_preserves : preserves R (FLDB_create_all rekog coll).
Proof. unfold FLDB_create_all. frame. apply call_rekog_preserves. Qed.

Lemma FLDB_delete_all_preserves : preserves R (FLDB_delete_all rekog coll).
Proof. unfold FLDB_delete_all. frame. apply call_rekog_preserves. Qed.

Lemma FLDB_init_preserves create initial_data :
  preserves R (FLDB_init rekog coll create initial_data).
Proof.
  unfold FLDB_init, FLDB_import_db. frame;
    try apply FLDB_create_all_preserves.
  all: intros s; simpl; auto.
Qed.

Lemma FLDB_index_faces_preserves image :
  preserves R (FLDB_index_faces rekog coll bucket image).
Proof.
  unfold FLDB_index_faces, FLDB__index_faces. frame;
    try apply call_rekog_preserves; try apply Face_init_preserves.
Qed.

Lemma FLDB_search_faces_preserves face :
  preserves R (FLDB_search_faces rekog coll face).
Proof.
  unfold FLDB_search_faces, FLDB__search_faces. frame;
    try apply call_rekog_preserves; try apply FLDB_get_face_preserves.
Qed.

Lemma update_image_faces_preserves image fs :
  preserves R (update_image image (fun o => mkImage (image_url o) (Some fs))).
Proof.
  intros s. unfold update_image, bind, deref, modify.
  case_lookup o E; cbn [snd].
  - apply R_image_faces. exact E.
  - apply R_refl.
Qed.

Lemma Image_get_faces_preserves image :
  preserves R (Image_get_faces rekog coll bucket image).
Proof.
  unfold Image_get_faces. frame;
    try apply FLDB_index_faces_preserves;
    try apply update_image_faces_preserves.
Qed.

Lemma FLDB_add_image_preserves url index :
  preserves R (FLDB_add_image rekog coll bucket url index).
Proof.
  apply FLDB_add_image__preserves. apply Image_get_faces_preserves.
Qed.

End FrameMethods.

(** ** Four frames *)

Lemma faces_kept_refl s : faces_kept s s.
Proof. intros f o H. exact H. Qed.

Lemma faces_kept_trans s1 s2 s3 :
  faces_kept s1 s2 -> faces_kept s2 s3 -> faces_kept s1 s3.
Proof. intros H1 H2 f o H. apply H2, H1, H. Qed.

Lemma no_call_trans s1 s2 s3 : no_call s1 s2 -> no_call s2 s3 -> no_call s1 s3.
Proof. unfold no_call. congruence. Qed.




Lemma confirmations_kept_refl s : confirmations_kept s s.
Proof. split; exists 0; simpl; rewrite app_nil_r; reflexivity. Qed.

Lemma confirmations_kept_trans s1 s2 s3 :
  confirmations_kept s1 s2 -> confirmations_kept s2 s3 ->
  confirmations_kept s1 s3.
Proof.
  intros [[n1 Hf1] [m1 Hp1]] [[n2 Hf2] [m2 Hp2]]. split.
  - exists (n1 + n2). rewrite Hf2, Hf1, <- app_assoc, replicate_add.
    reflexivity.
  - exists (m1 + m2). rewrite Hp2, Hp1, <- app_assoc, replicate_add.
    reflexivity.
Qed.

(** a state that differs in neither side of the confirmations *)
Lemma confirmations_kept_same s s' :
  face_persons s' = face_persons s ->
  person_face_lists s' = person_face_lists s -> confirmations_kept s s'.
Proof.
  intros Hf Hp. split; exists 0; simpl; rewrite app_nil_r; assumption.
Qed.

Ltac faces_kept_steps :=
  first [ exact faces_kept_refl | exact faces_kept_trans
        | intros; unfold faces_kept; simpl; intros;
          first [assumption | apply lookup_app_l_Some; assumption] ].

Ltac no_call_steps :=
  first [ exact no_call_trans | intros; reflexivity ].


Ltac confirmations_kept_steps :=
  first [ exact confirmations_kept_refl | exact confirmations_kept_trans
        | intros; apply confirmations_kept_same; reflexivity
        | intros; split;
          [ first [ exists 0; simpl; rewrite app_nil_r; reflexivity
                  | exists 1; unfold face_persons; simpl;
                    rewrite fmap_app; reflexivity ]
          | first [ exists 0; simpl; rewrite app_nil_r; reflexivity
                  | exists 1; unfold person_face_lists; simpl;
                    rewrite fmap_app; reflexivity ] ] ].

Section Frames.

Variable rekog : list request -> request -> outcome pyval.
Variables coll bucket : pyval.

Lemma FLDB_search_faces_faces_kept face :
  preserves faces_kept (FLDB_search_faces rekog coll face).
Proof. apply FLDB_search_faces_preserves; faces_kept_steps. Qed.

Lemma FLDB_get_face_no_call fid data create :
  preserves no_call (FLDB_get_face fid data create).
Proof. apply FLDB_get_face_preserves; no_call_steps. Qed.

Lemma Face_init_no_call fulldata image :
  preserves no_call (Face_init fulldata image).
Proof. apply Face_init_preserves; no_call_steps. Qed.

Lemma FLDB_search_faces_confirmations face :
  preserves confirmations_kept (FLDB_search_faces rekog coll face).
Proof. apply FLDB_search_faces_preserves; confirmations_kept_steps. Qed.

End Frames.

(** The methods that go through [Face.get_similar], under a relation that
    [get_similar] respects for the given [refresh]. *)
Section FrameSimilar.

Variable rekog : list request -> request -> outcome pyval.
Variable coll : pyval.
Variable R : state -> state -> Prop.
Variable refresh : bool.

Hypothesis R_refl : forall s, R s s.
Hypothesis R_trans : forall s1 s2 s3, R s1 s2 -> R s2 s3 -> R s1 s3.
Hypothesis R_get_similar :
  forall face, preserves R (Face_get_similar rekog coll face refresh).

Lemma Person_get_faces_guess_preserves person :
  preserves R (Person_get_faces_guess rekog coll person refresh).
Proof.
  unfold Person_get_faces_guess. frame; try apply R_get_similar. 
Qed.

Lemma Person_get_faces_preserves person guess :
  preserves R (Person_get_faces rekog coll person guess refresh).
Proof.
  unfold Person_get_faces. frame. apply Person_get_faces_guess_preserves.
Qed.

End FrameSimilar.

Lemma Face_get_person_preserves rekog coll R face :
  (forall s, R s s) -> (forall s1 s2 s3, R s1 s2 -> R s2 s3 -> R s1 s3) ->
  (forall f, preserves R (Face_get_similar rekog coll f false)) ->
  preserves R (Face_get_person rekog coll face).
Proof.
  intros R_refl R_trans Hsim. unfold Face_get_person. frame; apply Hsim.
Qed.

(** ** Updates of one object *)

Lemma update_face_run x g s o :
  heap_faces s !! x = Some o ->
  update_face x g s = (Ret tt, with_heap_faces (<[x := g o]> (heap_faces s)) s).
Proof.
  intros H. unfold update_face, bind, deref, modify.
  case_lookup o' E; [| discriminate].
  injection H as ->. reflexivity.
Qed.

Lemma update_person_run p g s o :
  heap_persons s !! p = Some o ->
  update_person p g s
  = (Ret tt, with_heap_persons (<[p := g o]> (heap_persons s)) s).
Proof.
  intros H. unfold update_person, bind, deref, modify.
  case_lookup o' E; [| discriminate].
  injection H as ->. reflexivity.
Qed.

Lemma update_face_missing x g s :
  heap_faces s !! x = None -> update_face x g s = (Raise NoSuchObject, s).
Proof.
  intros H. unfold update_face, bind, deref.
  case_lookup o' E; [discriminate | reflexivity].
Qed.

Lemma update_person_missing p g s :
  heap_persons s !! p = None -> update_person p g s = (Raise NoSuchObject, s).
Proof.
  intros H. unfold update_person, bind, deref.
  case_lookup o' E; [discriminate | reflexivity].
Qed.

Lemma update_face_confirmations x g :
  (forall o, face_person (g o) = face_person o) ->
  preserves confirmations_kept (update_face x g).
Proof.
  intros Hg s. destruct (heap_faces s !! x) as [o|] eqn:E.
  - rewrite (update_face_run _ _ _ _ E). cbn [snd].
    apply confirmations_kept_same; [| reflexivity].
    unfold face_persons. simpl. rewrite list_fmap_insert, Hg.
    apply list_insert_id. rewrite list_lookup_fmap, E. reflexivity.
  - rewrite (update_face_missing _ _ _ E). apply confirmations_kept_refl.
Qed.



(** ** The similarity cache *)

Section Similar.

Variable rekog : list request -> request -> outcome pyval.
Variables coll bucket : pyval.

Lemma Face_get_similar_confirmations face refresh :
  preserves confirmations_kept (Face_get_similar rekog coll face refresh).
Proof.
  unfold Face_get_similar.
  frame_with ltac:(first [ exact confirmations_kept_refl
                         | exact confirmations_kept_trans ]);
    try apply FLDB_search_faces_confirmations;
    apply update_face_confirmations; reflexivity.
Qed.

(** a cached list is what [get_similar] returns, and nothing moves *)
Lemma Face_get_similar_cached face s o l :
  heap_faces s !! face = Some o -> face_similar o = Some l ->
  Face_get_similar rekog coll face false s = (Ret l, s).
Proof.
  intros Hf Hl. unfold Face_get_similar, bind, deref.
  rewrite Hf, Hl. reflexivity.
Qed.

(** without a cached list, or with [refresh], [get_similar] searches and
    stores what the search gave *)
Lemma Face_get_similar_search face refresh s o :
  heap_faces s !! face = Some o ->
  refresh = true \/ face_similar o = None ->
  Face_get_similar rekog coll face refresh s
  = match FLDB_search_faces rekog coll face s with
    | (Ret r, s1) =>
        (Ret r,
         with_heap_faces
           (<[face := mkFace (face_fid o) (face_fulldata o) (face_image o)
                             (Some r) (face_person o)]> (heap_faces s1)) s1)
    | (Raise e, s1) => (Raise e, s1)
    end.
Proof.
  intros Hf Hc. unfold Face_get_similar. unfold bind at 1. unfold deref.
  rewrite Hf.
  assert (Hm : forall k : M (list (fref * Q)),
             match refresh, face_similar o with
             | false, Some l => ret l
             | _, _ => k
             end = k).
  { intros k. destruct Hc as [-> | ->]; [reflexivity |].
    destruct refresh; reflexivity. }
  rewrite Hm. unfold bind at 1.
  pose proof (FLDB_search_faces_faces_kept rekog coll face s) as Hk.
  destruct (FLDB_search_faces rekog coll face s) as [[r|e] s1];
    [| reflexivity].
  unfold bind. rewrite (update_face_run _ _ _ o) by (apply Hk, Hf).
  reflexivity.
Qed.






End Similar.

(** ** Confirmations *)

Lemma person_in_faces_kept s s' :
  confirmations_kept s s' -> person_in_faces s -> person_in_faces s'.
Proof.
  intros [[n Hf] [m Hp]] Inv f p H. rewrite Hf in H.
  apply lookup_app_Some in H as [H | [_ H]].
  - destruct (Inv f p H) as (fs & Hfs & Hin). exists fs. split; [| exact Hin].
    rewrite Hp. apply lookup_app_l_Some, Hfs.
  - apply lookup_replicate in H as [H _]. discriminate.
Qed.

Lemma faces_have_person_kept s s' :
  confirmations_kept s s' -> faces_have_person s -> faces_have_person s'.
Proof.
  intros [[n Hf] [m Hp]] Inv p fs f H Hin. rewrite Hp in H.
  apply lookup_app_Some in H as [H | [_ H]].
  - destruct (Inv p fs f H Hin) as (q & fs' & Hq & Hfs' & Hin').
    exists q, fs'. rewrite Hf, Hp.
    repeat split; try apply lookup_app_l_Some; assumption.
  - apply lookup_replicate in H as [-> _]. destruct Hin.
Qed.

Lemma person_in_faces_confirmed f p s s' :
  f < length (heap_faces s) -> confirmed f p s s' ->
  person_in_faces s -> person_in_faces s'.
Proof.
  intros Hlen (old & Hold & Hf & Hp) Inv f' p' H. rewrite Hf in H. rewrite Hp.
  assert (Hpl : p < length (person_face_lists s))
    by (eapply lookup_lt_Some, Hold).
  destruct (decide (f = f')) as [<-|Hne].
  - rewrite list_lookup_insert_eq in H
      by (unfold face_persons; rewrite length_fmap; exact Hlen).
    injection H as <-. exists (old ++ [f]). split.
    + apply list_lookup_insert_eq, Hpl.
    + apply in_or_app. right. left. reflexivity.
  - rewrite list_lookup_insert_ne in H by exact Hne.
    destruct (Inv f' p' H) as (fs & Hfs & Hin).
    destruct (decide (p = p')) as [<-|Hnp].
    + exists (old ++ [f]). split; [apply list_lookup_insert_eq, Hpl |].
      rewrite Hold in Hfs. injection Hfs as <-.
      apply in_or_app. left. exact Hin.
    + exists fs. rewrite list_lookup_insert_ne by exact Hnp.
      split; assumption.
Qed.

Lemma faces_have_person_confirmed f p s s' :
  f < length (heap_faces s) -> confirmed f p s s' ->
  faces_have_person s -> faces_have_person s'.
Proof.
  intros Hlen (old & Hold & Hf & Hp) Inv p' fs f' H Hin.
  rewrite Hf, Hp. rewrite Hp in H.
  assert (Hpl : p < length (person_face_lists s))
    by (eapply lookup_lt_Some, Hold).
  assert (Hfl : f < length (face_persons s))
    by (unfold face_persons; rewrite length_fmap; exact Hlen).
  assert (Hnew : (<[p := old ++ [f]]> (person_face_lists s)) !! p
                 = Some (old ++ [f]))
    by (apply list_lookup_insert_eq, Hpl).
  destruct (decide (f = f')) as [<-|Hne].
  { exists p, (old ++ [f]). repeat split.
    - apply list_lookup_insert_eq, Hfl.
    - exact Hnew.
    - apply in_or_app. right. left. reflexivity. }
  assert (Hold' : exists fs0, person_face_lists s !! p' = Some fs0 /\ In f' fs0).
  { destruct (decide (p = p')) as [<-|Hnp].
    - rewrite Hnew in H. injection H as <-. exists old. split; [exact Hold |].
      apply in_app_or in Hin as [Hin | [Hin | []]]; [exact Hin | congruence].
    - rewrite list_lookup_insert_ne in H by exact Hnp. eauto. }
  destruct Hold' as (fs0 & Hfs0 & Hin0).
  destruct (Inv p' fs0 f' Hfs0 Hin0) as (q & fs' & Hq & Hfs' & Hin').
  rewrite list_lookup_insert_ne by exact Hne.
  destruct (decide (p = q)) as [<-|Hnq].
  - exists p, (old ++ [f]). repeat split; [exact Hq | exact Hnew |].
    rewrite Hold in Hfs'. injection Hfs' as <-.
    apply in_or_app. left. exact Hin'.
  - exists q, fs'. rewrite list_lookup_insert_ne by exact Hnq.
    repeat split; assumption.
Qed.

Lemma Face_set_person_confirmed f p s :
  f < length (heap_faces s) -> p < length (heap_persons s) ->
  exists s', Face_set_person f p s = (Ret tt, s') /\ confirmed f p s s'.
Proof.
  intros Hf Hp.
  apply lookup_lt_is_Some in Hf as [fo Hfo].
  apply lookup_lt_is_Some in Hp as [po Hpo].
  unfold Face_set_person, Face__set_person, Person__add_face.
  eexists. split.
  - erewrite bind_run by (apply update_face_run, Hfo).
    apply update_person_run. exact Hpo.
  - exists (person_faces po). unfold person_face_lists, face_persons. simpl.
    rewrite !list_fmap_insert, list_lookup_fmap, Hpo. auto.
Qed.

Lemma Person_add_face_confirmed f p s :
  f < length (heap_faces s) -> p < length (heap_persons s) ->
  exists s', Person_add_face p f s = (Ret tt, s') /\ confirmed f p s s'.
Proof.
  intros Hf Hp.
  apply lookup_lt_is_Some in Hf as [fo Hfo].
  apply lookup_lt_is_Some in Hp as [po Hpo].
  unfold Person_add_face, Face__set_person, Person__add_face.
  eexists. split.
  - erewrite bind_run by (apply update_person_run, Hpo).
    apply update_face_run. exact Hfo.
  - exists (person_faces po). unfold person_face_lists, face_persons. simpl.
    rewrite !list_fmap_insert, list_lookup_fmap, Hpo. auto.
Qed.

Section Confirmations.

Variable rekog : list request -> request -> outcome pyval.
Variables coll bucket : pyval.

Lemma exec_confirmations_kept c s :
  is_confirmation c = false ->
  confirmations_kept s (exec rekog coll bucket c s).
Proof.
  intros Hc. destruct c; cbn [exec]; try discriminate Hc.
  - apply FLDB_add_person_preserves; confirmations_kept_steps.
  - apply FLDB_get_person_preserves; confirmations_kept_steps.
  - apply FLDB_add_image_preserves; confirmations_kept_steps.
  - apply FLDB_get_image_preserves; confirmations_kept_steps.
  - apply FLDB_get_face_preserves; confirmations_kept_steps.
  - apply FLDB_list_faces_preserves; confirmations_kept_steps.
  - apply confirmations_kept_refl.
  - apply confirmations_kept_refl.
  - apply FLDB_create_all_preserves; confirmations_kept_steps.
  - apply FLDB_delete_all_preserves; confirmations_kept_steps.
  - apply FLDB_index_faces_preserves; confirmations_kept_steps.
  - apply FLDB_search_faces_preserves; confirmations_kept_steps.
  - apply Image_get_faces_preserves; confirmations_kept_steps.
  - apply Face_get_similar_confirmations.
  - apply Face_get_person_preserves;
      [exact confirmations_kept_refl | exact confirmations_kept_trans
      | intros f; apply Face_get_similar_confirmations].
  - apply Person_get_faces_preserves;
      [exact confirmations_kept_refl | exact confirmations_kept_trans
      | intros f; apply Face_get_similar_confirmations].
Qed.

Lemma exec_lockstep c s :
  valid_call s c ->
  person_in_faces s /\ faces_have_person s ->
  person_in_faces (exec rekog coll bucket c s) /\
  faces_have_person (exec rekog coll bucket c s).
Proof.
  intros Hv [I1 I2]. destruct (is_confirmation c) eqn:Hc.
  - destruct c; try discriminate Hc; cbn [exec]; destruct Hv as [Hf Hp].
    + destruct (Face_set_person_confirmed _ _ _ Hf Hp) as (s' & -> & Hs').
      split; [eapply person_in_faces_confirmed
             | eapply faces_have_person_confirmed]; eassumption.
    + destruct (Person_add_face_confirmed _ _ _ Hf Hp) as (s' & -> & Hs').
      split; [eapply person_in_faces_confirmed
             | eapply faces_have_person_confirmed]; eassumption.
  - pose proof (exec_confirmations_kept c s Hc) as Hk.
    split; [eapply person_in_faces_kept | eapply faces_have_person_kept];
      eassumption.
Qed.

Lemma reachable_lockstep s :
  reachable rekog coll bucket s -> person_in_faces s /\ faces_have_person s.
Proof.
  induction 1 as [create initial_data | s c _ IH Hv].
  - assert (Hk : confirmations_kept empty_state
                   (snd (FLDB_init rekog coll create initial_data
                           empty_state)))
      by (apply FLDB_init_preserves; confirmations_kept_steps).
    split; [eapply person_in_faces_kept | eapply faces_have_person_kept];
      try exact Hk.
    + intros f p H. discriminate H.
    + intros p fs f H. discriminate H.
  - apply exec_lockstep; assumption.
Qed.

Lemma reachable_run s cs :
  reachable rekog coll bucket s -> valid_calls rekog coll bucket s cs ->
  reachable rekog coll bucket (run rekog coll bucket cs s).
Proof.
  revert s. induction cs as [|c cs IH]; intros s Hs Hv; simpl.
  - exact Hs.
  - destruct Hv as [Hc Hv]. apply IH; [| exact Hv].
    apply reach_call; assumption.
Qed.

Lemma reachable_empty : reachable rekog coll bucket empty_state.
Proof. exact (reach_init rekog coll bucket false VNone). Qed.

End Confirmations.

(** ** Dictionaries and sorting *)

Lemma key_eqb_refl k : hashable k = true -> key_eqb k k = true.
Proof.
  destruct k; simpl; try discriminate; intros _.
  - reflexivity.
  - apply String.eqb_refl.
  - apply Qeq_bool_iff. reflexivity.
Qed.

Lemma od_get_set {V} k (v : V) d :
  hashable k = true -> od_get k (od_set k v d) = Some v.
Proof.
  intros Hk. induction d as [|[k' v'] d IH]; simpl.
  - rewrite key_eqb_refl by exact Hk. reflexivity.
  - destruct (key_eqb k' k) eqn:E; simpl; rewrite E; [reflexivity | exact IH].
Qed.

Lemma insert_desc_sorted {A} (x : A * Q) l :
  sorted_by_score l -> sorted_by_score (insert_desc x l).
Proof.
  unfold sorted_by_score. induction l as [|y l IH]; intros Hs; simpl.
  - repeat constructor.
  - destruct (Qle_bool (snd y) (snd x)) eqn:E.
    + constructor; [exact Hs |]. constructor. apply Qle_bool_iff, E.
    + inversion Hs as [|? ? Hl Hhd]; subst. constructor; [apply IH, Hl |].
      assert (Hxy : (snd x <= snd y)%Q).
      { apply Qlt_le_weak, Qnot_le_lt. intros H.
        apply Qle_bool_iff in H. congruence. }
      destruct l as [|z l]; simpl.
      * constructor. exact Hxy.
      * destruct (Qle_bool (snd z) (snd x)); constructor;
          [exact Hxy | inversion Hhd; assumption].
Qed.

Lemma sorted_desc_sorted {A} (l : list (A * Q)) :
  sorted_by_score (sorted_desc l).
Proof.
  induction l as [|x l IH]; simpl.
  - constructor.
  - apply insert_desc_sorted, IH.
Qed.

(** ** Loops that cannot go round *)

Lemma list_comp_raising {A B} e (body : A -> M B) l s r s' :
  list_comp (fun _ => raise e) body l s = (Ret r, s') -> l = [] /\ r = [].
Proof.
  destruct l as [|x l]; simpl.
  - unfold ret. intros H. injection H as <- _. auto.
  - unfold bind, raise. discriminate.
Qed.

Lemma foldM_unchanged {A B} (f : B -> A -> M B) l :
  (forall acc x s acc' s', f acc x s = (Ret acc', s') -> acc' = acc) ->
  forall acc s r s', foldM f acc l s = (Ret r, s') -> r = acc.
Proof.
  intros Hf. induction l as [|x l IH]; intros acc s r s' H; simpl in H.
  - unfold ret in H. injection H as <- _. reflexivity.
  - apply bind_Ret in H as (acc' & s1 & H1 & H2).
    apply Hf in H1 as ->. eapply IH, H2.
Qed.

Section Guess.

Variable rekog : list request -> request -> outcome pyval.
Variable coll : pyval.

(** the guess block returns only with nothing in its dictionary: a
    similarity list with an item in it makes the filter raise *)
Lemma Person_get_faces_guess_empty person refresh s d s' :
  Person_get_faces_guess rekog coll person refresh s = (Ret d, s') ->
  d = [].
Proof.
  unfold Person_get_faces_guess. intros H.
  apply bind_Ret in H as (po & s0 & _ & H).
  apply bind_Ret in H as (faces & s1 & Hfold & H).
  apply bind_Ret in H as (u & s2 & _ & H).
  unfold ret in H. injection H as <- _.
  eapply foldM_unchanged, Hfold.
  clear. intros acc x s acc' s' H.
  apply bind_Ret in H as (sims & s1 & _ & H).
  apply bind_Ret in H as (similar & s2 & Hc & H).
  apply list_comp_raising in Hc as [_ ->]. simpl in H.
  unfold ret in H. injection H as <- _. reflexivity.
Qed.

End Guess.

(** ** What [Person.get_faces] returns *)

Lemma od_set_values {V} k (v : V) d x :
  In x (od_values (od_set k v d)) -> x = v \/ In x (od_values d).
Proof.
  induction d as [|[k' v'] d IH]; simpl.
  - intros [<- | []]. auto.
  - destruct (key_eqb k' k); simpl.
    + intros [<- | H]; auto.
    + intros [<- | H]; auto. destruct (IH H); auto.
Qed.

Lemma od_update_values {V} (d e : odict V) x :
  In x (od_values (od_update d e)) ->
  In x (od_values d) \/ In x (od_values e).
Proof.
  unfold od_update. revert d. induction e as [|[k v] e IH]; intros d; simpl.
  - auto.
  - intros H. apply IH in H as [H | H]; [| auto].
    apply od_set_values in H as [-> | H]; auto.
Qed.

Lemma insert_desc_In {A} (x y : A * Q) l :
  In y (insert_desc x l) -> y = x \/ In y l.
Proof.
  induction l as [|z l IH]; simpl.
  - intros [<- | []]. auto.
  - destruct (Qle_bool (snd z) (snd x)); simpl.
    + intros [<- | H]; auto.
    + intros [<- | H]; auto. destruct (IH H); auto.
Qed.

Lemma sorted_desc_In {A} (y : A * Q) l : In y (sorted_desc l) -> In y l.
Proof.
  induction l as [|x l IH]; simpl; [auto |].
  intros H. apply insert_desc_In in H as [-> | H]; auto.
Qed.

(** the entries of [{x.fid: (x, 1.0) for x in l}] *)
Lemma known_values (key : nat -> M pyval) l s d s' v :
  dict_comp key (fun x => ret (x, 1%Q)) l s = (Ret d, s') ->
  In v (od_values d) -> In (fst v) l /\ snd v = 1%Q.
Proof.
  unfold dict_comp.
  assert (G : forall acc s d s',
             foldM (fun acc x => k <- key x ;; w <- ret (x, 1%Q) ;;
                                 py_setitem k w acc) acc l s = (Ret d, s') ->
             In v (od_values d) ->
             In v (od_values acc) \/ (In (fst v) l /\ snd v = 1%Q)).
  { induction l as [|x l IH]; intros acc s0 d0 s0' H Hin; simpl in H.
    - unfold ret in H. injection H as <- _. auto.
    - apply bind_Ret in H as (acc' & s1 & Hstep & H).
      destruct (IH _ _ _ _ H Hin) as [Hacc | [Hl Hv]];
        [| right; split; [right; exact Hl | exact Hv]].
      apply bind_Ret in Hstep as (k & s2 & _ & Hstep).
      apply bind_Ret in Hstep as (w & s3 & Hw & Hstep).
      unfold ret in Hw. injection Hw as <- _.
      unfold py_setitem in Hstep. destruct (hashable k); [| discriminate].
      unfold ret in Hstep. injection Hstep as <- _.
      apply od_set_values in Hacc as [-> | Hacc]; [| auto].
      right. split; [left |]; reflexivity. }
  intros H Hin. destruct (G _ _ _ _ H Hin) as [[] | Hv]. exact Hv.
Qed.

Section GetFaces.

Variable rekog : list request -> request -> outcome pyval.
Variable coll : pyval.

(** whatever is returned is a confirmed Face of the Person, at 1.0 *)
Lemma Person_get_faces_known person guess refresh s l s' c score :
  Person_get_faces rekog coll person guess refresh s = (Ret l, s') ->
  In (c, score) l ->
  exists o, heap_persons s' !! person = Some o /\
            In c (person_faces o) /\ score = 1%Q.
Proof.
  unfold Person_get_faces. intros H Hin.
  apply bind_Ret in H as (faces & s1 & Hg & H).
  assert (faces = []) as ->.
  { destruct guess.
    - eapply Person_get_faces_guess_empty, Hg.
    - unfold ret in Hg. injection Hg as <- _. reflexivity. }
  apply bind_Ret in H as (po & s2 & Hpo & H).
  apply bind_Ret in H as (known & s3 & Hk & H).
  unfold ret in H. injection H as <- <-.
  apply sorted_desc_In, od_update_values in Hin as [[] | Hin].
  assert (Hsame : s2 = s3).
  { change s3 with (snd (Ret known, s3)). rewrite <- Hk.
    apply (preserves_dict_comp eq);
      frame_with ltac:(first [ exact (@eq_refl state)
                             | exact (@eq_trans state) ]). }
  subst s3.
  unfold deref in Hpo.
  destruct (heap_persons s1 !! person) as [po'|] eqn:E; [| discriminate].
  injection Hpo as -> ->.
  destruct (known_values _ _ _ _ _ _ Hk Hin) as [Hc Hs].
  exists po. auto.
Qed.

End GetFaces.

(** ** Calls to the backend *)

Section Calls.

Variable rekog : list request -> request -> outcome pyval.
Variables coll bucket : pyval.

Lemma FLDB_search_faces_calls face s o :
  heap_faces s !! face = Some o ->
  calls (snd (FLDB_search_faces rekog coll face s))
  = calls s ++ [search_request coll o].
Proof.
  intros Hf. unfold FLDB_search_faces. unfold bind at 1. unfold deref.
  rewrite Hf. unfold FLDB__search_faces, call_rekog.
  unfold bind at 1. unfold bind at 1. fold (search_request coll o).
  destruct (rekog (calls s) (search_request coll o)) as [resp|e];
    [| reflexivity].
  unfold lift at 1. destruct (subscript resp "FaceMatches") as [ms|e];
    [| reflexivity].
  unfold bind at 1, lift at 1. destruct (py_iter ms) as [items|e];
    [| reflexivity].
  match goal with
  | |- calls (snd (?m ?s0)) = _ =>
      assert (H : no_call s0 (snd (m s0))); [| exact H]
  end.
  apply preserves_mapM; [reflexivity | exact no_call_trans |].
  frame_with ltac:(first [ exact (fun s => eq_refl (calls s))
                         | exact no_call_trans ]).
  apply FLDB_get_face_no_call.
Qed.

(** a [get_similar] that returns leaves what it returned in the cache *)
Lemma Face_get_similar_stores face refresh s l s1 :
  Face_get_similar rekog coll face refresh s = (Ret l, s1) ->
  exists o1, heap_faces s1 !! face = Some o1 /\ face_similar o1 = Some l.
Proof.
  intros H. destruct (heap_faces s !! face) as [o|] eqn:Hf.
  - destruct refresh eqn:Hr; [| destruct (face_similar o) as [l0|] eqn:Hl].
    2: { rewrite (Face_get_similar_cached _ _ _ _ _ _ Hf Hl) in H.
         injection H as <- <-. eauto. }
    all: rewrite (Face_get_similar_search _ _ _ _ _ _ Hf) in H by auto;
      pose proof (FLDB_search_faces_faces_kept rekog coll face s) as Hk;
      destruct (FLDB_search_faces rekog coll face s) as [[r|e] s'];
      [| discriminate]; injection H as <- <-; eexists; simpl;
      (split; [apply list_lookup_insert_eq; eapply lookup_lt_Some, Hk, Hf
              | reflexivity]).
  - unfold Face_get_similar, bind, deref in H. rewrite Hf in H.
    discriminate.
Qed.


End Calls.

(** ** Registering persons *)

Lemma FLDB_add_person_run name s :
  FLDB_add_person name s
  = if hashable name then
      if od_mem name (db_persons s) then (Raise AssertionError, s)
      else (Ret (length (heap_persons s)),
            with_db_persons
              (od_set name (length (heap_persons s)) (db_persons s))
              (with_heap_persons (heap_persons s ++ [mkPerson name []]) s))
    else (Raise unhashable, s).
Proof.
  unfold FLDB_add_person, Person_init, new_person, py_contains, py_setitem,
    bind, read, modify, ret, raise.
  destruct (hashable name); [| reflexivity].
  destruct (od_mem name (db_persons s)); reflexivity.
Qed.

Lemma FLDB_get_person_create_run name s :
  FLDB_get_person name true s
  = if hashable name then
      if od_mem name (db_persons s) then
        match od_get name (db_persons s) with
        | Some p => (Ret p, s)
        | None => (Raise (KeyError name), s)
        end
      else FLDB_add_person name s
    else (Raise unhashable, s).
Proof.
  unfold FLDB_get_person, py_contains, py_getitem, bind, read, ret, raise.
  destruct (hashable name) eqn:Hh; [| reflexivity].
  destruct (od_mem name (db_persons s)); cbn [negb]; [| reflexivity].
  destruct (od_get name (db_persons s)); reflexivity.
Qed.

(** * The claims *)

(** C1 (the code departs from it).  The claim: with A and B confirmed to a
    Person and an unconfirmed C similar to A at 0.8 and to B at 0.6,
    [get_faces(guess=True)] returns C at (0.8 + 0.6) / 2 = 0.7.  In the
    state [ex_two_confirmed] alice has exactly the confirmed Faces A and B,
    C is unconfirmed, the searches for A and B give C at 80/100 and 60/100,
    and [get_faces(guess=True)] raises AttributeError: the filter reads the
    attribute [person] of a (Face, similarity) tuple. *)
Theorem C1_get_faces_guess_raises :
  person_face_lists ex_two_confirmed = [[0; 1]] /\
  face_persons ex_two_confirmed = [Some 0; Some 0; None] /\
  fst (FLDB_search_faces ex_rekog ex_coll 0 ex_two_confirmed)
  = Ret [(2, (80 / 100)%Q)] /\
  fst (FLDB_search_faces ex_rekog ex_coll 1 ex_two_confirmed)
  = Ret [(2, (60 / 100)%Q)] /\
  fst (Person_get_faces ex_rekog ex_coll 0 true false ex_two_confirmed)
  = Raise (AttributeError "tuple" "person").
Proof. repeat split; vm_compute; reflexivity. Qed.

(** C2 (the code departs from it).  The claim: a Face that is confirmed to
    another Person is kept out of the guesses of [get_faces], whatever its
    similarity.  In [ex_two_persons] the Face C is confirmed to alice and
    the Face A to bob, and the search for A gives C at 80/100: the claim
    has [get_faces(guess=True)] of bob return A alone, C being filtered
    out.  The filter that is to exclude C reads the attribute [person] of
    the (Face, similarity) tuple and raises AttributeError: the guess block
    gives no dictionary and [get_faces] returns nothing.  Without [guess]
    bob has A at 1. *)
Theorem C2_confirmed_candidate_filter_raises :
  person_face_lists ex_two_persons = [[2]; [0]] /\
  face_persons ex_two_persons = [Some 1; None; Some 0] /\
  fst (FLDB_search_faces ex_rekog ex_coll 0 ex_two_persons)
  = Ret [(2, (80 / 100)%Q)] /\
  fst (Person_get_faces_guess ex_rekog ex_coll 1 false ex_two_persons)
  = Raise (AttributeError "tuple" "person") /\
  fst (Person_get_faces ex_rekog ex_coll 1 true false ex_two_persons)
  = Raise (AttributeError "tuple" "person") /\
  fst (Person_get_faces ex_rekog ex_coll 1 false false ex_two_persons)
  = Ret [(0, 1%Q)].
Proof. repeat split; vm_compute; reflexivity. Qed.

(** C3 (the code departs from it).  The claim: for every input
    [get_faces] returns a sequence sorted by score, best first, and the
    empty sequence for a Person without confirmed Faces.  In
    [ex_two_confirmed] alice has the confirmed Faces A and B, and the
    similarity list of A holds the unconfirmed C at 80/100: the claim has
    [get_faces(guess=True)] return A and B at 1 and C after them.  The
    code returns no sequence there: it raises AttributeError at the filter
    of the guesses.  Where no guess is asked for it returns A and B at 1;
    and for a Person without confirmed Faces it returns the empty list,
    whatever [guess] and [refresh] are, and changes nothing. *)
Theorem C3_get_faces_guess_returns_no_sequence :
  person_face_lists ex_two_confirmed = [[0; 1]] /\
  fst (Face_get_similar ex_rekog ex_coll 0 false ex_two_confirmed)
  = Ret [(2, (80 / 100)%Q)] /\
  fst (Person_get_faces ex_rekog ex_coll 0 true false ex_two_confirmed)
  = Raise (AttributeError "tuple" "person") /\
  Person_get_faces ex_rekog ex_coll 0 false false ex_two_confirmed
  = (Ret [(0, 1%Q); (1, 1%Q)], ex_two_confirmed) /\
  (forall rekog coll person guess refresh s o,
     heap_persons s !! person = Some o -> person_faces o = [] ->
     Person_get_faces rekog coll person guess refresh s = (Ret [], s)).
Proof.
  repeat split; try (vm_compute; reflexivity).
  intros rekog coll person guess refresh s o Ho Hfaces.
  unfold Person_get_faces, Person_get_faces_guess, bind, deref.
  destruct guess; rewrite ?Ho, ?Hfaces; simpl; unfold ret;
    rewrite ?Ho, ?Hfaces; reflexivity.
Qed.

Lemma C3_witness :
  Person_get_faces ex_rekog ex_coll 0 true false ex_group
  = (Ret [], ex_group) /\
  Person_get_faces ex_rekog ex_coll 0 false false ex_group
  = (Ret [], ex_group).
Proof.
  destruct C3_get_faces_guess_returns_no_sequence
    as (_ & _ & _ & _ & Hempty).
  split; apply (Hempty _ _ _ _ _ _ (mkPerson (VStr "alice") []));
    reflexivity.
Defined.

(** C4 (the code departs from it).  The claim: [list_faces(refresh=True)]
    against a backend that lists the collection in two pages, of 2 and of 1
    face records, gives 3 keys.  The code asks for the listing once, with
    no page token, and iterates over the response itself, a dictionary:
    the items are its keys, strings, and subscripting one with ['FaceId']
    raises TypeError; the face mapping is left as it was. *)
Theorem C4_list_faces_one_request :
  ex_rekog [] ("list_faces", [("CollectionId", ex_coll)])
  = Ret (VDict [("Faces", VList [ex_face "A" "group.jpg";
                                 ex_face "B" "group.jpg"]);
                ("NextToken", VStr "page2")]) /\
  ex_rekog [] ("list_faces", [("CollectionId", ex_coll);
                              ("NextToken", VStr "page2")])
  = Ret (VDict [("Faces", VList [ex_face "C" "group.jpg"])]) /\
  FLDB_list_faces ex_rekog ex_coll true empty_state
  = (Raise (TypeError "string indices must be integers"),
     with_calls [("list_faces", [("CollectionId", ex_coll)])] empty_state).
Proof. repeat split; vm_compute; reflexivity. Qed.

(** C5 (the code departs from it).  The claim: [get_person] of a confirmed
    Face gives [(person, 1.0)] alone, and of an unconfirmed Face the
    (person, similarity) pairs of the similar Faces that have a person.
    In [ex_candidate_confirmed] C is confirmed to alice and A is not
    confirmed; the similarity list of A is C at 80/100.  [get_person] of C
    gives [(alice, 1)]; [get_person] of A, which the claim has give
    [(alice, 0.8)], raises AttributeError: the filter reads the attribute
    [persom], which a Face does not have. *)
Theorem C5_get_person_unconfirmed_raises :
  face_persons ex_candidate_confirmed = [None; None; Some 0] /\
  fst (Face_get_similar ex_rekog ex_coll 0 false ex_candidate_confirmed)
  = Ret [(2, (80 / 100)%Q)] /\
  fst (Face_get_person ex_rekog ex_coll 2 ex_candidate_confirmed)
  = Ret [(Some 0, 1%Q)] /\
  fst (Face_get_person ex_rekog ex_coll 0 ex_candidate_confirmed)
  = Raise (AttributeError "Face" "persom").
Proof. repeat split; vm_compute; reflexivity. Qed.

(** C6 (the code departs from it).  The claim: an Image is detected once,
    and later calls of [get_faces] return the cached list, also when the
    detection found no face.  For "empty.jpg", where the backend finds no
    face, every [get_faces] calls the backend again: after two calls the
    log has two detections.  For "late.jpg", where the backend finds no
    face the first time and one the second, the second [get_faces] returns
    another list than the first. *)
Theorem C6_empty_detection_not_cached :
  let get_faces := Image_get_faces ex_rekog ex_coll ex_bucket 0 in
  fst (get_faces ex_empty_image) = Ret [] /\
  fst (get_faces (snd (get_faces ex_empty_image))) = Ret [] /\
  map fst (calls (snd (get_faces (snd (get_faces ex_empty_image)))))
  = ["index_faces"; "index_faces"] /\
  fst (get_faces ex_late_image) = Ret [] /\
  fst (get_faces (snd (get_faces ex_late_image))) = Ret [0].
Proof. repeat split; vm_compute; reflexivity. Qed.

(** ** Confirmations, both sides *)

Lemma ex_reconfirmed_reachable :
  reachable ex_rekog ex_coll ex_bucket ex_reconfirmed.
Proof.
  unfold ex_reconfirmed, ex_group.
  apply reachable_run; [apply reachable_run; [apply reachable_empty |] |];
    vm_compute; repeat split; lia.
Qed.

(** C7 as stated fails: in [ex_reconfirmed], reached by confirming the Face
    A to alice and then to bob, A is in the list of alice and its person is
    bob. *)
Lemma C7_counterexample :
  ~ (forall s, reachable ex_rekog ex_coll ex_bucket s ->
     forall f p, face_persons s !! f = Some (Some p) <->
                 exists fs, person_face_lists s !! p = Some fs /\ In f fs).
Proof.
  intros H.
  destruct (H ex_reconfirmed ex_reconfirmed_reachable 0 0) as [_ Hback].
  assert (Hp : face_persons ex_reconfirmed !! 0 = Some (Some 0)).
  { apply Hback. exists [0]. split; [reflexivity | left; reflexivity]. }
  vm_compute in Hp. discriminate Hp.
Qed.

(** C7 (amended).  In every state reached through the methods, called with
    objects that exist: a Face whose [person] is [p] is in [p.faces]; a Face
    in [p.faces] has a [person], in whose list it is too (that person is
    [p] unless the Face was confirmed again later); and each of the two
    confirmation methods returns with both sides applied, the Face's
    [person] set to [p] and the Face appended to [p.faces]. *)
Theorem C7_confirmations_in_lockstep rekog coll bucket s :
  reachable rekog coll bucket s ->
  person_in_faces s /\ faces_have_person s /\
  (forall f p, f < length (heap_faces s) -> p < length (heap_persons s) ->
     exists s1 s2,
       Face_set_person f p s = (Ret tt, s1) /\ confirmed f p s s1 /\
       Person_add_face p f s = (Ret tt, s2) /\ confirmed f p s s2).
Proof.
  intros Hr. destruct (reachable_lockstep _ _ _ _ Hr) as [I1 I2].
  repeat split; [exact I1 | exact I2 |]. intros f p Hf Hp.
  destruct (Face_set_person_confirmed f p s Hf Hp) as (s1 & H1 & C1).
  destruct (Person_add_face_confirmed f p s Hf Hp) as (s2 & H2 & C2).
  exists s1, s2. auto.
Qed.

Lemma C7_witness :
  person_in_faces ex_reconfirmed /\ faces_have_person ex_reconfirmed.
Proof.
  destruct (C7_confirmations_in_lockstep ex_rekog ex_coll ex_bucket
              ex_reconfirmed) as (I1 & I2 & _).
  - unfold ex_reconfirmed, ex_group.
    apply reachable_run; [apply reachable_run; [apply reachable_empty |] |];
      vm_compute; repeat split; lia.
  - split; [exact I1 | exact I2].
Defined.



(** ** Searches *)

Lemma mapM_Ret {A B} (f : A -> M B) l s r s' :
  mapM f l s = (Ret r, s') ->
  Forall2 (fun x y => exists s1 s2, f x s1 = (Ret y, s2)) l r.
Proof.
  revert s r s'. induction l as [|x l IH]; intros s r s' H; simpl in H.
  - unfold ret in H. injection H as <- _. constructor.
  - apply bind_Ret in H as (y & s1 & Hy & H).
    apply bind_Ret in H as (ys & s2 & Hys & H).
    unfold ret in H. injection H as <- _.
    constructor; [exists s, s1; exact Hy | eapply IH, Hys].
Qed.

Lemma lift_Ret {A} (o : outcome A) s a s' :
  lift o s = (Ret a, s') -> o = Ret a.
Proof. unfold lift. intros H. injection H as -> _. reflexivity. Qed.

(** where a search returns, each pair carries the similarity of its match
    divided by 100, once *)
Lemma FLDB_search_faces_normalised rekog coll face s l s' :
  FLDB_search_faces rekog coll face s = (Ret l, s') ->
  exists o resp ms items,
    heap_faces s !! face = Some o /\
    rekog (calls s) (search_request coll o) = Ret resp /\
    subscript resp "FaceMatches" = Ret ms /\ py_iter ms = Ret items /\
    Forall2 (fun x r => exists raw, subscript x "Similarity" = Ret (VNum raw)
                                    /\ snd r = (raw / 100)%Q) items l.
Proof.
  unfold FLDB_search_faces. intros H.
  apply bind_Ret in H as (o & s0 & Ho & H). unfold deref in Ho.
  destruct (heap_faces s !! face) as [o'|] eqn:Hf; [| discriminate].
  injection Ho as -> ->.
  apply bind_Ret in H as (ms & s1 & Hms & H).
  apply bind_Ret in H as (items & s2 & Hit & H). apply lift_Ret in Hit.
  unfold FLDB__search_faces in Hms.
  apply bind_Ret in Hms as (resp & s3 & Hc & Hms). apply lift_Ret in Hms.
  unfold call_rekog in Hc. injection Hc as Hc _.
  exists o, resp, ms, items. repeat split; try assumption.
  apply mapM_Ret in H. eapply Forall2_impl; [exact H |].
  intros x r (sa & sb & Hx). cbv beta in Hx.
  apply bind_Ret in Hx as (data & ? & _ & Hx).
  apply bind_Ret in Hx as (f & ? & _ & Hx).
  apply bind_Ret in Hx as (raw & ? & Hraw & Hx). apply lift_Ret in Hraw.
  apply bind_Ret in Hx as (sim & ? & Hsim & Hx). apply lift_Ret in Hsim.
  unfold ret in Hx. injection Hx as <- _.
  destruct raw; try discriminate Hsim. injection Hsim as <-. eauto.
Qed.

Lemma normalised_bounds (raw : Q) :
  (0 <= raw)%Q -> (raw <= 100)%Q -> (0 <= raw / 100)%Q /\ (raw / 100 <= 1)%Q.
Proof.
  intros H0 H100. split.
  - apply Qle_shift_div_l; [reflexivity |]. rewrite Qmult_0_l. exact H0.
  - apply Qle_shift_div_r; [reflexivity |]. rewrite Qmult_1_l. exact H100.
Qed.

(** C9 (the code departs from it).  The claim: [search_faces] gives, for
    every match, the pair of its Face, looked up or created by [get_face],
    and its similarity divided by 100.  In [ex_solo] the Face D is known;
    the backend matches it with a face Z at 90, Z being in no image seen so
    far.  [search_faces] then raises KeyError: [get_face] is given the
    record of Z, [{'FaceId': ..., 'ExternalImageId': ...}], finds Z
    missing and creates the Face from that record, and [Face.__init__]
    reads ['Face']['FaceId'] of what it is given. *)
Theorem C9_search_faces_unknown_match_raises :
  fst (FLDB__search_faces ex_rekog ex_coll (VStr "D") ex_solo)
  = Ret (VList [ex_match "Z" "other.jpg" 90]) /\
  od_get (VStr "Z") (db_faces ex_solo) = None /\
  FLDB_get_face VNone (ex_face "Z" "other.jpg") true ex_solo
  = (Raise (KeyError (VStr "Face")), ex_solo) /\
  fst (FLDB_search_faces ex_rekog ex_coll 0 ex_solo)
  = Raise (KeyError (VStr "Face")).
Proof. repeat split; vm_compute; reflexivity. Qed.




(** * Further properties *)

(** ** Registries: persons and images *)

Lemma od_set_fresh {V} k (v : V) d :
  od_get k d = None -> od_set k v d = d ++ [(k, v)].
Proof.
  induction d as [|[k' v'] d IH]; simpl; [reflexivity |].
  destruct (key_eqb k' k); [discriminate |]. intros H. rewrite IH by exact H.
  reflexivity.
Qed.

Lemma od_mem_set {V} k k' (v : V) d :
  od_mem k d = true -> od_mem k (od_set k' v d) = true.
Proof.
  unfold od_mem. induction d as [|[k0 v0] d IH]; simpl; [discriminate |].
  destruct (key_eqb k0 k') eqn:E'; simpl; destruct (key_eqb k0 k);
    auto.
Qed.

Lemma FLDB_get_person_run name s :
  FLDB_get_person name false s
  = if hashable name then
      match od_get name (db_persons s) with
      | Some p => (Ret p, s)
      | None => (Raise (KeyError name), s)
      end
    else (Raise unhashable, s).
Proof.
  unfold FLDB_get_person, py_getitem, bind, read, ret, raise.
  destruct (hashable name); [| reflexivity].
  destruct (od_get name (db_persons s)); reflexivity.
Qed.

(** [add_image] with [index=False], whatever [Image.get_faces] is *)
Lemma FLDB_add_image_noindex_run g url s :
  FLDB_add_image_ g url false s
  = if hashable url then
      if od_mem url (db_images s) then (Raise AssertionError, s)
      else (Ret (length (heap_images s)),
            with_db_images
              (od_set url (length (heap_images s)) (db_images s))
              (with_heap_images (heap_images s ++ [mkImage url None]) s))
    else (Raise unhashable, s).
Proof.
  unfold FLDB_add_image_, Image_init, new_image, py_contains, py_setitem,
    bind, read, modify, ret, raise.
  destruct (hashable url); [| reflexivity].
  destruct (od_mem url (db_images s)); reflexivity.
Qed.

Lemma FLDB_get_image_run url create s :
  FLDB_get_image url create s
  = if hashable url then
      match od_get url (db_images s) with
      | Some i => (Ret i, s)
      | None => if create then FLDB_add_image_ (fun _ => ret []) url false s
                else (Raise (KeyError url), s)
      end
    else (Raise unhashable, s).
Proof.
  unfold FLDB_get_image, py_contains, py_getitem, od_mem, bind, read, ret,
    raise.
  destruct create, (hashable url) eqn:Hh; try reflexivity;
    destruct (od_get url (db_images s)) eqn:E; cbn [negb]; rewrite ?E;
    reflexivity.
Qed.

(** X1.  [get_person] without [create] raises KeyError for a name that is
    not registered and changes nothing; and the Person that [add_person]
    returned is what [get_person] returns for that name afterwards, with
    or without [create], again changing nothing. *)
Theorem X1_get_person_lookup name s :
  (hashable name = true -> od_get name (db_persons s) = None ->
   FLDB_get_person name false s = (Raise (KeyError name), s)) /\
  (forall p s1 create, FLDB_add_person name s = (Ret p, s1) ->
     FLDB_get_person name create s1 = (Ret p, s1)).
Proof.
  split.
  - intros Hh Hg. rewrite FLDB_get_person_run, Hh, Hg. reflexivity.
  - intros p s1 create. rewrite FLDB_add_person_run.
    destruct (hashable name) eqn:Hh; [| discriminate].
    destruct (od_mem name (db_persons s)); [discriminate |].
    intros H. injection H as <- <-.
    destruct create;
      [rewrite FLDB_get_person_create_run | rewrite FLDB_get_person_run];
      rewrite Hh; unfold od_mem; cbn [db_persons with_db_persons];
      rewrite od_get_set by exact Hh; reflexivity.
Qed.

Lemma X1_witness :
  FLDB_get_person (VStr "carol") false ex_group
  = (Raise (KeyError (VStr "carol")), ex_group) /\
  FLDB_get_person (VStr "alice") false ex_group = (Ret 0, ex_group).
Proof.
  split.
  - apply (X1_get_person_lookup (VStr "carol") ex_group); reflexivity.
  - apply (proj2 (X1_get_person_lookup (VStr "alice")
                    (exec ex_rekog ex_coll ex_bucket
                       (CAddImage (VStr "group.jpg") true) empty_state))
             0 ex_group false).
    vm_compute. reflexivity.
Defined.

(** X2.  [add_person], when it returns, has made a new Person object with
    the given name and no Face, and has put the name last in what
    [list_persons] lists; the Persons there were are as they were. *)
Theorem X2_add_person_registers name s p s1 :
  FLDB_add_person name s = (Ret p, s1) ->
  heap_persons s !! p = None /\
  heap_persons s1 !! p = Some (mkPerson name []) /\
  (forall q o, heap_persons s !! q = Some o -> heap_persons s1 !! q = Some o) /\
  FLDB_list_persons s1 = (Ret (od_keys (db_persons s) ++ [name]), s1).
Proof.
  rewrite FLDB_add_person_run.
  destruct (hashable name) eqn:Hh; [| discriminate].
  unfold od_mem. destruct (od_get name (db_persons s)) eqn:Hg; [discriminate |].
  intros H. injection H as <- <-. cbn [heap_persons with_db_persons
    with_heap_persons]. repeat split.
  - apply lookup_ge_None_2. lia.
  - rewrite lookup_app_r, Nat.sub_diag by lia. reflexivity.
  - intros q o Hq. apply lookup_app_l_Some, Hq.
  - unfold FLDB_list_persons, bind, read, ret.
    cbn [db_persons with_db_persons]. rewrite od_set_fresh by exact Hg.
    unfold od_keys. rewrite map_app. reflexivity.
Qed.

Lemma X2_witness :
  FLDB_list_persons
    (snd (FLDB_add_person (VStr "bob") ex_group))
  = (Ret [VStr "alice"; VStr "bob"],
     snd (FLDB_add_person (VStr "bob") ex_group)).
Proof.
  apply (X2_add_person_registers (VStr "bob") ex_group 1).
  vm_compute. reflexivity.
Defined.

(** X3.  [get_image] with [create] on a path that is not registered makes
    an Image that is not indexed (its faces are unset), lists the path
    last in [list_images], calls the backend not at all, and returns the
    same Image when asked again, with or without [create]; without
    [create] an unregistered path raises KeyError and changes nothing. *)
Theorem X3_get_image_creates_unindexed url s :
  hashable url = true -> od_get url (db_images s) = None ->
  FLDB_get_image url false s = (Raise (KeyError url), s) /\
  exists i s1,
    FLDB_get_image url true s = (Ret i, s1) /\
    heap_images s1 !! i = Some (mkImage url None) /\
    calls s1 = calls s /\
    FLDB_list_images s1 = (Ret (od_keys (db_images s) ++ [url]), s1) /\
    forall create, FLDB_get_image url create s1 = (Ret i, s1).
Proof.
  intros Hh Hg. rewrite !FLDB_get_image_run, Hh, Hg.
  split; [reflexivity |].
  rewrite FLDB_add_image_noindex_run, Hh. unfold od_mem. rewrite Hg.
  eexists _, _. split; [reflexivity |].
  cbn [heap_images calls db_images with_db_images with_heap_images].
  repeat split.
  - rewrite lookup_app_r, Nat.sub_diag by lia. reflexivity.
  - unfold FLDB_list_images, bind, read, ret.
    cbn [db_images with_db_images]. rewrite od_set_fresh by exact Hg.
    unfold od_keys. rewrite map_app. reflexivity.
  - intros create. rewrite FLDB_get_image_run, Hh.
    cbn [db_images with_db_images]. rewrite od_get_set by exact Hh.
    reflexivity.
Qed.

Lemma X3_witness :
  FLDB_get_image (VStr "new.jpg") false ex_group
  = (Raise (KeyError (VStr "new.jpg")), ex_group).
Proof.
  apply (X3_get_image_creates_unindexed (VStr "new.jpg") ex_group);
    reflexivity.
Defined.

(** ** The two confirmation methods *)

(** X4.  [Face.set_person] and [Person.add_face] are one operation: for a
    Face and a Person that exist they return and leave the same state. *)
Theorem X4_set_person_is_add_face face person s :
  face < length (heap_faces s) -> person < length (heap_persons s) ->
  Face_set_person face person s = Person_add_face person face s /\
  fst (Face_set_person face person s) = Ret tt.
Proof.
  intros Hf Hp.
  apply lookup_lt_is_Some in Hf as [fo Hfo].
  apply lookup_lt_is_Some in Hp as [po Hpo].
  unfold Face_set_person, Person_add_face, Face__set_person,
    Person__add_face.
  rewrite (bind_run _ _ _ _ _ (update_face_run _ _ _ _ Hfo)).
  rewrite (bind_run _ _ _ _ _ (update_person_run _ _ _ _ Hpo)).
  rewrite (update_person_run _ _ _ po) by exact Hpo.
  rewrite (update_face_run _ _ _ fo) by exact Hfo.
  split; reflexivity.
Qed.

Lemma X4_witness :
  Face_set_person 2 0 ex_group = Person_add_face 0 2 ex_group.
Proof.
  apply (X4_set_person_is_add_face 2 0 ex_group); vm_compute; lia.
Defined.

(** ** Looking up a Face *)

Lemma FLDB_get_face_run fid data create s :
  truthy fid = true ->
  FLDB_get_face fid data create s
  = if hashable fid then
      match od_get fid (db_faces s) with
      | Some f => (Ret f, s)
      | None =>
          if create && truthy data then
            match Face_init data None s with
            | (Ret face, s1) =>
                (Ret face, with_db_faces (od_set fid face (db_faces s1)) s1)
            | (Raise e, s1) => (Raise e, s1)
            end
          else (Raise (KeyError fid), s)
      end
    else if create && truthy data then (Raise unhashable, s)
         else (Raise unhashable, s).
Proof.
  intros Ht. unfold FLDB_get_face, py_contains, py_getitem, py_setitem,
    od_mem, bind, ret, read, modify, raise, lift.
  rewrite Ht. cbn [negb].
  destruct (create && truthy data), (hashable fid) eqn:Hh;
    try reflexivity;
    destruct (od_get fid (db_faces s)) eqn:Hg; cbn [negb];
    rewrite ?Hh, ?Hg; try reflexivity.
  destruct (Face_init data None s) as [[face|e] s1]; [| reflexivity].
  cbn [db_faces with_db_faces]. rewrite od_get_set by exact Hh.
  reflexivity.
Qed.

(** X5.  [get_face] with an identifier: a registered Face is returned as
    it is, whatever [data] and [create] are, and nothing changes; an
    identifier that is not registered raises KeyError, and changes nothing,
    when [create] is off or no [data] is given.  Without an identifier
    [get_face] takes it from [data['FaceId']], and without [data] too it
    raises TypeError. *)
Theorem X5_get_face_lookup fid data create s :
  truthy fid = true -> hashable fid = true ->
  (forall f, od_get fid (db_faces s) = Some f ->
     FLDB_get_face fid data create s = (Ret f, s)) /\
  (od_get fid (db_faces s) = None -> create && truthy data = false ->
     FLDB_get_face fid data create s = (Raise (KeyError fid), s)) /\
  (subscript data "FaceId" = Ret fid ->
     FLDB_get_face VNone data create s = FLDB_get_face fid data create s) /\
  FLDB_get_face VNone VNone create s
  = (Raise (TypeError "object is not subscriptable"), s).
Proof.
  intros Ht Hh. repeat split.
  - intros f Hf. rewrite FLDB_get_face_run, Hh, Hf by exact Ht. reflexivity.
  - intros Hf Hc. rewrite FLDB_get_face_run, Hh, Hf, Hc by exact Ht.
    reflexivity.
  - intros Hd. unfold FLDB_get_face. rewrite Ht. cbn [truthy negb].
    unfold bind at 1. unfold lift at 1. rewrite Hd.
    unfold bind at 4. unfold ret at 2. reflexivity.
Qed.

Lemma X5_witness :
  FLDB_get_face (VStr "B") VNone true ex_group = (Ret 1, ex_group) /\
  FLDB_get_face (VStr "Z") VNone true ex_group
  = (Raise (KeyError (VStr "Z")), ex_group) /\
  FLDB_get_face VNone (ex_face "B" "group.jpg") false ex_group
  = (Ret 1, ex_group).
Proof.
  destruct (X5_get_face_lookup (VStr "B") VNone true ex_group)
    as (Hfound & _); [reflexivity | reflexivity |].
  destruct (X5_get_face_lookup (VStr "Z") VNone true ex_group)
    as (_ & Hmissing & _); [reflexivity | reflexivity |].
  destruct (X5_get_face_lookup (VStr "B") (ex_face "B" "group.jpg") false
              ex_group) as (Hfound' & _ & Hdata & _);
    [reflexivity | reflexivity |].
  split; [| split].
  - apply Hfound. reflexivity.
  - apply Hmissing; reflexivity.
  - rewrite Hdata by reflexivity. apply Hfound'. reflexivity.
Defined.

(** ** Refreshing the similarity cache *)

(** X6.  [get_similar] with [refresh] searches whether or not a list is
    cached: it makes exactly one search call, returning or raising; what
    it returns is what the search gave, and it is what [get_similar]
    returns afterwards without [refresh], with no further call. *)
Theorem X6_get_similar_refresh rekog coll face s o :
  heap_faces s !! face = Some o ->
  calls (snd (Face_get_similar rekog coll face true s))
  = calls s ++ [search_request coll o] /\
  (forall l s1, Face_get_similar rekog coll face true s = (Ret l, s1) ->
     fst (FLDB_search_faces rekog coll face s) = Ret l /\
     Face_get_similar rekog coll face false s1 = (Ret l, s1)).
Proof.
  intros Hf. split.
  - rewrite (Face_get_similar_search _ _ _ _ _ _ Hf) by auto.
    rewrite <- (FLDB_search_faces_calls rekog coll face s o Hf).
    destruct (FLDB_search_faces rekog coll face s) as [[r|e] s']; reflexivity.
  - intros l s1 H. split.
    + rewrite (Face_get_similar_search _ _ _ _ _ _ Hf) in H by auto.
      destruct (FLDB_search_faces rekog coll face s) as [[r|e] s'];
        [| discriminate]. injection H as <- _. reflexivity.
    + destruct (Face_get_similar_stores _ _ _ _ _ _ _ H) as (o1 & Ho1 & Hl1).
      eapply Face_get_similar_cached; eassumption.
Qed.

Lemma X6_witness :
  calls (snd (Face_get_similar ex_rekog ex_coll 0 true
                (snd (Face_get_similar ex_rekog ex_coll 0 false ex_group))))
  = calls (snd (Face_get_similar ex_rekog ex_coll 0 false ex_group))
    ++ [search_request ex_coll
          (mkFace (VStr "A") (ex_record "A" "group.jpg") 0
                  (Some [(2, (80 / 100)%Q)]) None)].
Proof.
  apply (X6_get_similar_refresh ex_rekog ex_coll 0
           (snd (Face_get_similar ex_rekog ex_coll 0 false ex_group))).
  vm_compute. reflexivity.
Defined.

(** ** What every call leaves alone *)

(** A relation that the steps of the methods respect holds across every
    call, and so across every run. *)
Section ExecFrame.

Variable rekog : list request -> request -> outcome pyval.
Variables coll bucket : pyval.
Variable R : state -> state -> Prop.

Hypothesis R_refl : forall s, R s s.
Hypothesis R_trans : forall s1 s2 s3, R s1 s2 -> R s2 s3 -> R s1 s3.
Hypothesis R_db_persons : forall s d, R s (with_db_persons d s).
Hypothesis R_db_images : forall s d, R s (with_db_images d s).
Hypothesis R_db_faces : forall s d, R s (with_db_faces d s).
Hypothesis R_new_person :
  forall s name, R s (with_heap_persons (heap_persons s ++ [mkPerson name []]) s).
Hypothesis R_new_image :
  forall s url, R s (with_heap_images (heap_images s ++ [mkImage url None]) s).
Hypothesis R_new_face :
  forall s fid fulldata image,
    R s (with_heap_faces
           (heap_faces s ++ [mkFace fid fulldata image None None]) s).
Hypothesis R_call : forall s c, R s (with_calls c s).
Hypothesis R_get_faces :
  forall image, preserves R (Image_get_faces rekog coll bucket image).
Hypothesis R_similar :
  forall face r,
    preserves R (update_face face
                   (fun o => mkFace (face_fid o) (face_fulldata o)
                                    (face_image o) (Some r) (face_person o))).
Hypothesis R_person : forall face person, preserves R (Face__set_person face person).
Hypothesis R_faces : forall person face, preserves R (Person__add_face person face).

Lemma Face_get_similar_preserves face refresh :
  preserves R (Face_get_similar rekog coll face refresh).
Proof.
  unfold Face_get_similar. frame; try apply R_similar.
  all: apply FLDB_search_faces_preserves; assumption.
Qed.

Lemma exec_preserves c s : R s (exec rekog coll bucket c s).
Proof.
  destruct c; cbn [exec].
  - apply FLDB_add_person_preserves; assumption.
  - apply FLDB_get_person_preserves; assumption.
  - unfold FLDB_add_image. apply FLDB_add_image__preserves; assumption.
  - apply FLDB_get_image_preserves; assumption.
  - apply FLDB_get_face_preserves; assumption.
  - apply FLDB_list_faces_preserves; assumption.
  - apply R_refl.
  - apply R_refl.
  - apply FLDB_create_all_preserves; assumption.
  - apply FLDB_delete_all_preserves; assumption.
  - apply FLDB_index_faces_preserves; assumption.
  - apply FLDB_search_faces_preserves; assumption.
  - apply R_get_faces.
  - apply Face_get_similar_preserves.
  - unfold Face_set_person. apply preserves_bind; auto.
  - apply Face_get_person_preserves; try assumption.
    intros f. apply Face_get_similar_preserves.
  - unfold Person_add_face. apply preserves_bind; auto.
  - apply Person_get_faces_preserves; try assumption.
    intros f. apply Face_get_similar_preserves.
Qed.

Lemma run_preserves cs s : R s (run rekog coll bucket cs s).
Proof.
  revert s. induction cs as [|c cs IH]; intros s; simpl.
  - apply R_refl.
  - eapply R_trans; [apply exec_preserves | apply IH].
Qed.

End ExecFrame.

(** ** The face list of an Image *)

Lemma update_image_run i g s o :
  heap_images s !! i = Some o ->
  update_image i g s
  = (Ret tt, with_heap_images (<[i := g o]> (heap_images s)) s).
Proof.
  intros H. unfold update_image, bind, deref, modify.
  case_lookup o' E; [| discriminate].
  injection H as ->. reflexivity.
Qed.

Lemma update_image_missing i g s :
  heap_images s !! i = None -> update_image i g s = (Raise NoSuchObject, s).
Proof.
  intros H. unfold update_image, bind, deref.
  case_lookup o' E; [discriminate | reflexivity].
Qed.

Lemma images_kept_refl s : images_kept s s.
Proof. intros i o H. exact H. Qed.

Lemma images_kept_trans s1 s2 s3 :
  images_kept s1 s2 -> images_kept s2 s3 -> images_kept s1 s3.
Proof. intros H1 H2 i o H. apply H2, H1, H. Qed.

Lemma image_cache_kept_refl s : image_cache_kept s s.
Proof. intros i o x l H1 H2. eauto. Qed.

Lemma image_cache_kept_trans s1 s2 s3 :
  image_cache_kept s1 s2 -> image_cache_kept s2 s3 -> image_cache_kept s1 s3.
Proof.
  intros H1 H2 i o x l Hi Hl.
  destruct (H1 i o x l Hi Hl) as (o' & Hi' & Hl'). eauto.
Qed.

Lemma images_kept_cache_kept s s' : images_kept s s' -> image_cache_kept s s'.
Proof. intros H i o x l Hi Hl. exists o. split; [apply H, Hi | exact Hl]. Qed.

Ltac images_kept_steps :=
  first [ exact images_kept_refl | exact images_kept_trans
        | intros; unfold images_kept; simpl; intros;
          first [assumption | apply lookup_app_l_Some; assumption] ].

Ltac image_cache_kept_steps :=
  first [ exact image_cache_kept_refl | exact image_cache_kept_trans
        | intros; apply images_kept_cache_kept; images_kept_steps ].

Lemma update_face_images_kept x g : preserves images_kept (update_face x g).
Proof.
  intros s. destruct (heap_faces s !! x) as [o|] eqn:E.
  - rewrite (update_face_run _ _ _ _ E). intros i o1 H. exact H.
  - rewrite (update_face_missing _ _ _ E). apply images_kept_refl.
Qed.

Lemma update_person_images_kept p g : preserves images_kept (update_person p g).
Proof.
  intros s. destruct (heap_persons s !! p) as [o|] eqn:E.
  - rewrite (update_person_run _ _ _ _ E). intros i o1 H. exact H.
  - rewrite (update_person_missing _ _ _ E). apply images_kept_refl.
Qed.

Section ImageCache.

Variable rekog : list request -> request -> outcome pyval.
Variables coll bucket : pyval.

Lemma FLDB_index_faces_images_kept image :
  preserves images_kept (FLDB_index_faces rekog coll bucket image).
Proof. apply FLDB_index_faces_preserves; images_kept_steps. Qed.

(** a [get_faces] that returns a list with a Face in it leaves that list
    in the cache *)
Lemma Image_get_faces_stores image s x l s1 :
  Image_get_faces rekog coll bucket image s = (Ret (x :: l), s1) ->
  exists o1, heap_images s1 !! image = Some o1 /\
             image_faces o1 = Some (x :: l).
Proof.
  unfold Image_get_faces. intros H.
  apply bind_Ret in H as (im & s0 & Him & H). unfold deref in Him.
  destruct (heap_images s !! image) as [im'|] eqn:Hi; [| discriminate].
  injection Him as -> ->.
  assert (Hindex :
    (fs <- FLDB_index_faces rekog coll bucket image ;;
     update_image image (fun o => mkImage (image_url o) (Some fs)) ;;;
     ret fs) s0 = (Ret (x :: l), s1) ->
    exists o1, heap_images s1 !! image = Some o1 /\
               image_faces o1 = Some (x :: l)).
  { clear H. intros H.
    apply bind_Ret in H as (fs & s2 & Hfs & H).
    apply bind_Ret in H as ([] & s3 & Hup & H).
    unfold ret in H. injection H as -> ->.
    destruct (heap_images s2 !! image) as [o2|] eqn:Hi2.
    - rewrite (update_image_run _ _ _ _ Hi2) in Hup. injection Hup as <-.
      exists (mkImage (image_url o2) (Some (x :: l))). simpl.
      split; [| reflexivity].
      apply list_lookup_insert_eq. eapply lookup_lt_Some, Hi2.
    - rewrite (update_image_missing _ _ _ Hi2) in Hup. discriminate. }
  destruct (image_faces im) as [[|y l']|] eqn:Hc; try (apply Hindex, H).
  unfold ret in H. injection H as -> -> <-. eauto.
Qed.

(** a cached list with a Face in it is what [get_faces] returns, and
    nothing moves *)
Lemma Image_get_faces_cached image s o x l :
  heap_images s !! image = Some o -> image_faces o = Some (x :: l) ->
  Image_get_faces rekog coll bucket image s = (Ret (x :: l), s).
Proof.
  intros Hi Hl. unfold Image_get_faces, bind, deref. rewrite Hi, Hl.
  reflexivity.
Qed.

Lemma Image_get_faces_cache_kept image :
  preserves image_cache_kept (Image_get_faces rekog coll bucket image).
Proof.
  intros s. destruct (heap_images s !! image) as [im|] eqn:Hi.
  - assert (Hindex :
      image_faces im = None \/ image_faces im = Some [] ->
      image_cache_kept s
        (snd ((fs <- FLDB_index_faces rekog coll bucket image ;;
               update_image image (fun o => mkImage (image_url o) (Some fs)) ;;;
               ret fs) s))).
    { intros Hc. unfold bind at 1.
      pose proof (FLDB_index_faces_images_kept image s) as Hk.
      destruct (FLDB_index_faces rekog coll bucket image s) as [[fs|e] s2];
        cbn [snd] in Hk; [| apply images_kept_cache_kept, Hk].
      unfold bind. rewrite (update_image_run _ _ _ im) by (apply Hk, Hi).
      unfold ret. cbn [snd]. intros i o x l Ho Hl. simpl.
      destruct (decide (image = i)) as [<-|Hne].
      - rewrite Hi in Ho. injection Ho as <-.
        destruct Hc as [Hc | Hc]; congruence.
      - exists o. rewrite list_lookup_insert_ne by exact Hne.
        split; [apply Hk, Ho | exact Hl]. }
    unfold Image_get_faces. unfold bind at 1. unfold deref. rewrite Hi.
    destruct (image_faces im) as [[|y l']|] eqn:Hc; auto.
    apply image_cache_kept_refl.
  - unfold Image_get_faces, bind, deref. rewrite Hi.
    apply image_cache_kept_refl.
Qed.

Lemma run_image_cache_kept cs s :
  image_cache_kept s (run rekog coll bucket cs s).
Proof.
  apply run_preserves; try image_cache_kept_steps.
  - apply Image_get_faces_cache_kept.
  - intros face r s0. apply images_kept_cache_kept, update_face_images_kept.
  - intros face person s0.
    apply images_kept_cache_kept, update_face_images_kept.
  - intros person face s0.
    apply images_kept_cache_kept, update_person_images_kept.
Qed.

End ImageCache.

(** X7.  Once [Image.get_faces] has returned a list with a Face in it, it
    returns that list ever after, whatever methods are called in between,
    and does so without calling the backend or changing anything: no
    method empties or replaces the cached list. *)
Theorem X7_image_faces_cached rekog coll bucket image s x l s1 cs :
  Image_get_faces rekog coll bucket image s = (Ret (x :: l), s1) ->
  Image_get_faces rekog coll bucket image (run rekog coll bucket cs s1)
  = (Ret (x :: l), run rekog coll bucket cs s1).
Proof.
  intros H.
  destruct (Image_get_faces_stores _ _ _ _ _ _ _ _ H) as (o1 & Ho1 & Hl1).
  destruct (run_image_cache_kept rekog coll bucket cs s1 _ _ _ _ Ho1 Hl1)
    as (o2 & Ho2 & Hl2).
  eapply Image_get_faces_cached; eassumption.
Qed.

Lemma X7_witness :
  let s1 := snd (Image_get_faces ex_rekog ex_coll ex_bucket 0 ex_solo) in
  let s2 := run ex_rekog ex_coll ex_bucket
                [CAddImage (VStr "group.jpg") true; CImageGetFaces 0;
                 CListFaces true] s1 in
  Image_get_faces ex_rekog ex_coll ex_bucket 0 s2 = (Ret [0], s2).
Proof.
  intros s1 s2.
  apply (X7_image_faces_cached ex_rekog ex_coll ex_bucket 0 ex_solo 0 [] s1).
  vm_compute. reflexivity.
Defined.

(** ** Objects and what they are made from *)

Lemma identity_kept_refl s : identity_kept s s.
Proof. repeat split; intros; eauto 6. Qed.

Lemma identity_kept_trans s1 s2 s3 :
  identity_kept s1 s2 -> identity_kept s2 s3 -> identity_kept s1 s3.
Proof.
  intros (F1 & I1 & P1) (F2 & I2 & P2). repeat split.
  - intros f o H. destruct (F1 f o H) as (o' & H' & E1 & E2 & E3).
    destruct (F2 f o' H') as (o'' & H'' & E1' & E2' & E3').
    exists o''. repeat split; congruence.
  - intros i o H. destruct (I1 i o H) as (o' & H' & E1).
    destruct (I2 i o' H') as (o'' & H'' & E1').
    exists o''. split; congruence.
  - intros p o H. destruct (P1 p o H) as (o' & H' & E1).
    destruct (P2 p o' H') as (o'' & H'' & E1').
    exists o''. split; congruence.
Qed.

(** heaps that only grew *)
Lemma identity_kept_grown s s' :
  (forall f o, heap_faces s !! f = Some o -> heap_faces s' !! f = Some o) ->
  (forall i o, heap_images s !! i = Some o -> heap_images s' !! i = Some o) ->
  (forall p o, heap_persons s !! p = Some o -> heap_persons s' !! p = Some o) ->
  identity_kept s s'.
Proof. intros F I P. repeat split; intros; eauto 6. Qed.

Ltac identity_kept_steps :=
  first [ exact identity_kept_refl | exact identity_kept_trans
        | intros; apply identity_kept_grown; simpl; intros;
          first [assumption | apply lookup_app_l_Some; assumption] ].

Lemma update_face_identity_kept x g :
  (forall o, face_fid (g o) = face_fid o /\
             face_fulldata (g o) = face_fulldata o /\
             face_image (g o) = face_image o) ->
  preserves identity_kept (update_face x g).
Proof.
  intros Hg s. destruct (heap_faces s !! x) as [o|] eqn:E.
  - rewrite (update_face_run _ _ _ _ E). cbn [snd].
    repeat split; simpl; intros y o1 H; eauto.
    destruct (decide (x = y)) as [->|Hne].
    + exists (g o). rewrite E in H. injection H as ->. split; [| apply Hg].
      apply list_lookup_insert_eq. eapply lookup_lt_Some, E.
    + exists o1. rewrite list_lookup_insert_ne by exact Hne. auto.
  - rewrite (update_face_missing _ _ _ E). apply identity_kept_refl.
Qed.

Lemma update_person_identity_kept p g :
  (forall o, person_name (g o) = person_name o) ->
  preserves identity_kept (update_person p g).
Proof.
  intros Hg s. destruct (heap_persons s !! p) as [o|] eqn:E.
  - rewrite (update_person_run _ _ _ _ E). cbn [snd].
    repeat split; simpl; intros y o1 H; eauto 6.
    destruct (decide (p = y)) as [->|Hne].
    + exists (g o). rewrite E in H. injection H as ->. split; [| apply Hg].
      apply list_lookup_insert_eq. eapply lookup_lt_Some, E.
    + exists o1. rewrite list_lookup_insert_ne by exact Hne. auto.
  - rewrite (update_person_missing _ _ _ E). apply identity_kept_refl.
Qed.

Lemma update_image_identity_kept i g :
  (forall o, image_url (g o) = image_url o) ->
  preserves identity_kept (update_image i g).
Proof.
  intros Hg s. destruct (heap_images s !! i) as [o|] eqn:E.
  - rewrite (update_image_run _ _ _ _ E). cbn [snd].
    repeat split; simpl; intros y o1 H; eauto 6.
    destruct (decide (i = y)) as [->|Hne].
    + exists (g o). rewrite E in H. injection H as ->. split; [| apply Hg].
      apply list_lookup_insert_eq. eapply lookup_lt_Some, E.
    + exists o1. rewrite list_lookup_insert_ne by exact Hne. auto.
  - rewrite (update_image_missing _ _ _ E). apply identity_kept_refl.
Qed.

(** X8.  No method destroys an object or changes what it was made from:
    across any calls every Face keeps its identifier, its detection record
    and its Image, every Image its path and every Person its name. *)
Theorem X8_identity_kept rekog coll bucket cs s :
  identity_kept s (run rekog coll bucket cs s).
Proof.
  apply run_preserves; try identity_kept_steps.
  - intros image. unfold Image_get_faces.
    frame_with ltac:(first [ exact identity_kept_refl
                           | exact identity_kept_trans ]).
    all: first [ apply FLDB_index_faces_preserves; identity_kept_steps
               | apply update_image_identity_kept; reflexivity ].
  - intros face r. apply update_face_identity_kept. auto.
  - intros face person. apply update_face_identity_kept. auto.
  - intros person face. apply update_person_identity_kept. auto.
Qed.

(** ** Dictionaries without equal keys *)

Lemma od_set_keys {V} k (v : V) d k' :
  In k' (od_keys (od_set k v d)) -> k' = k \/ In k' (od_keys d).
Proof.
  induction d as [|[k0 v0] d IH]; simpl.
  - intros [<- | []]. auto.
  - destruct (key_eqb k0 k); simpl.
    + intros [<- | H]; auto.
    + intros [<- | H]; auto. destruct (IH H); auto.
Qed.

Lemma od_set_wf {V} k (v : V) d : od_wf d -> od_wf (od_set k v d).
Proof.
  induction d as [|[k0 v0] d IH]; simpl.
  - intros _. split; [intros k' [] | exact I].
  - intros [Hk Hd]. destruct (key_eqb k0 k) eqn:E; simpl.
    + split; assumption.
    + split; [| apply IH, Hd]. intros k' Hin.
      apply od_set_keys in Hin as [-> | Hin]; auto.
Qed.

Lemma od_set_fresh_keys {V} k (v : V) d :
  (forall k', In k' (od_keys d) -> key_eqb k' k = false) ->
  od_set k v d = d ++ [(k, v)].
Proof.
  induction d as [|[k0 v0] d IH]; simpl; intros H; [reflexivity |].
  rewrite (H k0) by (left; reflexivity). rewrite IH; [reflexivity |].
  intros k' Hin. apply H. right. exact Hin.
Qed.

Lemma od_wf_app_head {V} (d e : odict V) k v :
  od_wf (d ++ (k, v) :: e) ->
  forall k', In k' (od_keys d) -> key_eqb k' k = false.
Proof.
  induction d as [|[k0 v0] d IH]; simpl; intros H k' Hin; [destruct Hin |].
  destruct H as [Hk Hd]. destruct Hin as [<- | Hin].
  - apply Hk. unfold od_keys. rewrite map_app. apply in_or_app. right.
    left. reflexivity.
  - apply IH; assumption.
Qed.

Lemma od_update_wf {V} (d e : odict V) :
  od_wf (d ++ e) -> od_update d e = d ++ e.
Proof.
  unfold od_update. revert d. induction e as [|[k v] e IH]; intros d H; simpl.
  - rewrite app_nil_r. reflexivity.
  - rewrite od_set_fresh_keys by (eapply od_wf_app_head, H).
    rewrite IH by (rewrite <- app_assoc; exact H).
    rewrite <- app_assoc. reflexivity.
Qed.

Lemma od_set_value_In {V} k (v : V) d : In v (od_values (od_set k v d)).
Proof.
  induction d as [|[k0 v0] d IH]; simpl.
  - left. reflexivity.
  - destruct (key_eqb k0 k); simpl; auto.
Qed.

Lemma insert_desc_In_inv {A} (x y : A * Q) l :
  y = x \/ In y l -> In y (insert_desc x l).
Proof.
  induction l as [|z l IH]; simpl.
  - intros [-> | []]. left. reflexivity.
  - destruct (Qle_bool (snd z) (snd x)); simpl.
    + intros [-> | H]; auto.
    + intros [-> | [-> | H]]; auto.
Qed.

Lemma sorted_desc_In_inv {A} (y : A * Q) l : In y l -> In y (sorted_desc l).
Proof.
  induction l as [|x l IH]; simpl; [auto |].
  intros [-> | H]; apply insert_desc_In_inv; auto.
Qed.

(** ** Loops, piece by piece *)

Lemma foldM_app {A B} (f : B -> A -> M B) l1 l2 acc s :
  foldM f acc (l1 ++ l2) s
  = bind (foldM f acc l1) (fun acc' => foldM f acc' l2) s.
Proof.
  revert acc s. induction l1 as [|x l1 IH]; intros acc s; simpl.
  - reflexivity.
  - unfold bind. destruct (f acc x s) as [[acc'|e] s1]; [| reflexivity].
    rewrite IH. reflexivity.
Qed.

Lemma foldM_invariant {A B} (P : B -> Prop) (f : B -> A -> M B) l :
  (forall acc x s acc' s', P acc -> f acc x s = (Ret acc', s') -> P acc') ->
  forall acc s r s', P acc -> foldM f acc l s = (Ret r, s') -> P r.
Proof.
  intros Hf. induction l as [|x l IH]; intros acc s r s' Hacc H; simpl in H.
  - unfold ret in H. injection H as <- _. exact Hacc.
  - apply bind_Ret in H as (acc' & s1 & H1 & H2).
    eapply IH; [eapply Hf; eassumption | exact H2].
Qed.

Lemma dict_comp_wf {A V} (key : A -> M pyval) (value : A -> M V) l s d s' :
  dict_comp key value l s = (Ret d, s') -> od_wf d.
Proof.
  unfold dict_comp. apply foldM_invariant; [| exact I].
  intros acc x s0 acc' s0' Hacc H.
  apply bind_Ret in H as (k & s1 & _ & H).
  apply bind_Ret in H as (v & s2 & _ & H).
  unfold py_setitem in H. destruct (hashable k); [| discriminate].
  unfold ret in H. injection H as <- _. apply od_set_wf, Hacc.
Qed.

(** the last item of a dictionary comprehension is in the dictionary *)
Lemma dict_comp_last {A V} (key : A -> M pyval) (v : A -> V) l x s d s' :
  dict_comp key (fun y => ret (v y)) (l ++ [x]) s = (Ret d, s') ->
  In (v x) (od_values d).
Proof.
  unfold dict_comp. rewrite foldM_app. intros H.
  apply bind_Ret in H as (acc & s1 & _ & H). simpl in H.
  apply bind_Ret in H as (acc' & s2 & H & Hr).
  unfold ret in Hr. injection Hr as <- _.
  apply bind_Ret in H as (k & s3 & _ & H).
  apply bind_Ret in H as (w & s4 & Hw & H).
  unfold ret in Hw. injection Hw as <- _.
  unfold py_setitem in H. destruct (hashable k); [| discriminate].
  unfold ret in H. injection H as <- _. apply od_set_value_In.
Qed.

(** the comprehension over the confirmed Faces returns when every one of
    them has an identifier that can be a key *)
Lemma known_faces_total l s :
  Forall (fun f => exists o, heap_faces s !! f = Some o /\
                             hashable (face_fid o) = true) l ->
  forall acc, exists d,
    foldM (fun acc x =>
             k <- (o <- deref heap_faces x ;; ret (face_fid o)) ;;
             v <- ret (x, 1%Q) ;; py_setitem k v acc) acc l s = (Ret d, s).
Proof.
  induction 1 as [|f l (o & Ho & Hh) _ IH]; intros acc; simpl.
  - eexists. reflexivity.
  - destruct (IH (od_set (face_fid o) (f, 1%Q) acc)) as (d & Hd).
    exists d. rewrite <- Hd. unfold bind, deref, ret, py_setitem.
    rewrite Ho, Hh. reflexivity.
Qed.

(** ** The confirmed Faces of a Person *)

Lemma Face_set_person_inv face person s s1 :
  Face_set_person face person s = (Ret tt, s1) ->
  exists po,
    heap_persons s !! person = Some po /\
    heap_persons s1 !! person
    = Some (mkPerson (person_name po) (person_faces po ++ [face])).
Proof.
  unfold Face_set_person, Face__set_person, Person__add_face. intros H.
  apply bind_Ret in H as ([] & s0 & Hf & Hp).
  destruct (heap_faces s !! face) as [fo|] eqn:Efo.
  2: { rewrite (update_face_missing _ _ _ Efo) in Hf. discriminate. }
  rewrite (update_face_run _ _ _ _ Efo) in Hf. injection Hf as <-.
  cbn [heap_persons with_heap_faces] in Hp.
  destruct (heap_persons s !! person) as [po|] eqn:Epo.
  2: { rewrite update_person_missing in Hp by exact Epo. discriminate. }
  rewrite (update_person_run _ _ _ po) in Hp by exact Epo.
  injection Hp as <-. exists po. split; [reflexivity |]. simpl.
  apply list_lookup_insert_eq. eapply lookup_lt_Some, Epo.
Qed.

Section KnownFaces.

Variable rekog : list request -> request -> outcome pyval.
Variable coll : pyval.

(** without [guess], [get_faces] only reads *)
Lemma Person_get_faces_known_reads person refresh s :
  snd (Person_get_faces rekog coll person false refresh s) = s.
Proof.
  symmetry. revert s.
  change (preserves eq (Person_get_faces rekog coll person false refresh)).
  unfold Person_get_faces.
  frame_with ltac:(first [ exact (@eq_refl state)
                         | exact (@eq_trans state) ]).
Qed.

Lemma Person_get_faces_known_run person refresh s po :
  heap_persons s !! person = Some po ->
  Person_get_faces rekog coll person false refresh s
  = match dict_comp (fun x => o <- deref heap_faces x ;; ret (face_fid o))
                    (fun x => ret (x, 1%Q)) (person_faces po) s with
    | (Ret known, s') => (Ret (sorted_desc (od_values known)), s')
    | (Raise e, s') => (Raise e, s')
    end.
Proof.
  intros Hp. unfold Person_get_faces. unfold bind at 1. unfold ret at 1.
  unfold bind at 1. unfold deref at 1. rewrite Hp. unfold bind at 1.
  destruct (dict_comp _ _ (person_faces po) s) as [[known|e] s'] eqn:Hk;
    [| reflexivity].
  unfold ret. rewrite (od_update_wf [] known); [reflexivity |].
  eapply dict_comp_wf, Hk.
Qed.

End KnownFaces.

(** X9.  After [Face.set_person] of a Face to a Person,
    [get_faces(guess=False)] of that Person, where it returns, has the
    Face at 1.0 in what it returns; it returns, and changes nothing, when
    the identifiers of the Person's confirmed Faces can be keys. *)
Theorem X9_confirmed_face_listed rekog coll face person refresh s s1 :
  Face_set_person face person s = (Ret tt, s1) ->
  (forall l s2,
     Person_get_faces rekog coll person false refresh s1 = (Ret l, s2) ->
     In (face, 1%Q) l) /\
  ((forall po, heap_persons s1 !! person = Some po ->
      Forall (fun f => exists o, heap_faces s1 !! f = Some o /\
                                 hashable (face_fid o) = true)
             (person_faces po)) ->
   exists l, Person_get_faces rekog coll person false refresh s1 = (Ret l, s1)
             /\ In (face, 1%Q) l).
Proof.
  intros H. destruct (Face_set_person_inv _ _ _ _ H) as (po & _ & Hp1).
  assert (Hin : forall l s2,
     Person_get_faces rekog coll person false refresh s1 = (Ret l, s2) ->
     In (face, 1%Q) l).
  { intros l s2. rewrite (Person_get_faces_known_run _ _ _ _ _ _ Hp1).
    cbn [person_faces].
    destruct (dict_comp _ _ (person_faces po ++ [face]) s1)
      as [[known|e] s'] eqn:Hk; [| discriminate].
    intros Hl. injection Hl as <- _.
    apply sorted_desc_In_inv.
    apply (dict_comp_last _ (fun y => (y, 1%Q)) _ _ _ _ _ Hk). }
  split; [exact Hin |].
  intros Hall. specialize (Hall _ Hp1). cbn [person_faces] in Hall.
  destruct (known_faces_total _ _ Hall []) as (d & Hd).
  assert (Hrun : Person_get_faces rekog coll person false refresh s1
                 = (Ret (sorted_desc (od_values d)), s1)).
  { rewrite (Person_get_faces_known_run _ _ _ _ _ _ Hp1).
    cbn [person_faces]. unfold dict_comp. rewrite Hd. reflexivity. }
  eexists. split; [exact Hrun | eapply Hin, Hrun].
Qed.

Lemma X9_witness :
  exists l,
    Person_get_faces ex_rekog ex_coll 0 false false ex_candidate_confirmed
    = (Ret l, ex_candidate_confirmed) /\ In (2, 1%Q) l.
Proof.
  apply (X9_confirmed_face_listed ex_rekog ex_coll 2 0 false ex_group
           ex_candidate_confirmed).
  - vm_compute. reflexivity.
  - intros po Hpo. vm_compute in Hpo. injection Hpo as <-.
    repeat constructor. eexists. split; vm_compute; reflexivity.
Defined.

(** X10.  [get_faces] never returns a guess: what it returns, with
    [guess] or without, are confirmed Faces of the Person, each at 1.0;
    and without [guess] it only reads: the state is left as it was, and
    the backend is not called, whether it returns or raises. *)
Theorem X10_get_faces_returns_confirmed rekog coll person guess refresh s :
  snd (Person_get_faces rekog coll person false refresh s) = s /\
  (forall l s' c score,
     Person_get_faces rekog coll person guess refresh s = (Ret l, s') ->
     In (c, score) l ->
     score = 1%Q /\
     exists o, heap_persons s' !! person = Some o /\ In c (person_faces o)).
Proof.
  split; [apply Person_get_faces_known_reads |].
  intros l s' c score H Hin.
  destruct (Person_get_faces_known _ _ _ _ _ _ _ _ _ _ H Hin)
    as (o & Ho & Hc & Hs).
  eauto.
Qed.

Lemma X10_witness :
  1%Q = 1%Q /\
  exists o, heap_persons ex_candidate_confirmed !! 0 = Some o /\
            In 2 (person_faces o).
Proof.
  apply (proj2 (X10_get_faces_returns_confirmed ex_rekog ex_coll 0 false
                  false ex_candidate_confirmed) [(2, 1%Q)]
               ex_candidate_confirmed 2 1%Q).
  - vm_compute. reflexivity.
  - left. reflexivity.
Defined.

(** ** Registering and indexing images *)

(** [add_image] is [add_image] with [index=False], then the indexing *)
Lemma FLDB_add_image__split g url index s :
  FLDB_add_image_ g url index s
  = match FLDB_add_image_ (fun _ => ret []) url false s with
    | (Ret image, s0) =>
        ((if index then
            fs <- g image ;;
            upd <- dict_comp (fun x => o <- deref heap_faces x ;;
                                       ret (face_fid o)) ret fs ;;
            modify (fun s => with_db_faces (od_update (db_faces s) upd) s)
          else ret tt) ;;;
         ret image) s0
    | (Raise e, s0) => (Raise e, s0)
    end.
Proof.
  rewrite FLDB_add_image_noindex_run.
  unfold FLDB_add_image_, Image_init, new_image, py_contains, py_setitem.
  unfold bind at 1. unfold bind at 1. unfold read at 1.
  destruct (hashable url); [| reflexivity].
  unfold ret at 1. destruct (od_mem url (db_images s)); [reflexivity |].
  unfold bind at 1. unfold bind at 1. unfold bind at 1. unfold bind at 1.
  unfold read at 1. unfold bind at 1. unfold ret at 1. unfold modify at 1.
  reflexivity.
Qed.

(** The methods that register images and make Faces, under a relation
    that registering an image respects. *)
Section FrameRegistries.

Variable rekog : list request -> request -> outcome pyval.
Variables coll bucket : pyval.
Variable R : state -> state -> Prop.

Hypothesis R_refl : forall s, R s s.
Hypothesis R_trans : forall s1 s2 s3, R s1 s2 -> R s2 s3 -> R s1 s3.
Hypothesis R_add_image :
  forall url, preserves R (FLDB_add_image_ (fun _ => ret []) url false).
Hypothesis R_new_face :
  forall s fid fulldata image,
    R s (with_heap_faces
           (heap_faces s ++ [mkFace fid fulldata image None None]) s).
Hypothesis R_image_faces :
  forall s i o fs, heap_images s !! i = Some o ->
    R s (with_heap_images
           (<[i := mkImage (image_url o) (Some fs)]> (heap_images s)) s).
Hypothesis R_call : forall s c, R s (with_calls c s).
Hypothesis R_update_faces :
  forall s upd, R s (with_db_faces (od_update (db_faces s) upd) s).

Lemma FLDB_get_image_respects url create :
  preserves R (FLDB_get_image url create).
Proof. unfold FLDB_get_image. frame. apply R_add_image. Qed.

Lemma Face_init_respects fulldata image :
  preserves R (Face_init fulldata image).
Proof.
  unfold Face_init. frame; try apply FLDB_get_image_respects.
  all: intros s; apply R_new_face.
Qed.

Lemma FLDB_index_faces_respects image :
  preserves R (FLDB_index_faces rekog coll bucket image).
Proof.
  unfold FLDB_index_faces, FLDB__index_faces. frame;
    first [ apply Face_init_respects | intros s; apply R_call ].
Qed.

Lemma Image_get_faces_respects image :
  preserves R (Image_get_faces rekog coll bucket image).
Proof.
  unfold Image_get_faces. frame;
    first [ apply FLDB_index_faces_respects
          | apply update_image_faces_preserves; assumption ].
Qed.

Lemma FLDB_add_image_respects url index :
  preserves R (FLDB_add_image rekog coll bucket url index).
Proof.
  intros s. unfold FLDB_add_image. rewrite FLDB_add_image__split.
  pose proof (R_add_image url s) as H0.
  destruct (FLDB_add_image_ (fun _ => ret []) url false s) as [[image|e] s0];
    cbn [snd] in H0; [| exact H0].
  eapply R_trans; [exact H0 |]. revert s0 H0. intros s0 _. revert s0.
  change (preserves R
    ((if index then
        fs <- Image_get_faces rekog coll bucket image ;;
        upd <- dict_comp (fun x => o <- deref heap_faces x ;;
                                   ret (face_fid o)) ret fs ;;
        modify (fun s => with_db_faces (od_update (db_faces s) upd) s)
      else ret tt) ;;; ret image)).
  frame; first [ apply Image_get_faces_respects
               | intros s0; apply R_update_faces ].
Qed.

End FrameRegistries.

Lemma od_get_app_l {V} k (d e : odict V) v :
  od_get k d = Some v -> od_get k (d ++ e) = Some v.
Proof.
  induction d as [|[k0 v0] d IH]; simpl; [discriminate |].
  destruct (key_eqb k0 k); auto.
Qed.

Lemma registered_kept_refl s : registered_kept s s.
Proof. intros k i H. exact H. Qed.

Lemma registered_kept_trans s1 s2 s3 :
  registered_kept s1 s2 -> registered_kept s2 s3 -> registered_kept s1 s3.
Proof. intros H1 H2 k i H. apply H2, H1, H. Qed.

Lemma FLDB_add_image_noindex_registered g url :
  preserves registered_kept (FLDB_add_image_ g url false).
Proof.
  intros s. rewrite FLDB_add_image_noindex_run.
  destruct (hashable url); [| apply registered_kept_refl].
  unfold od_mem. destruct (od_get url (db_images s)) eqn:Hg;
    [apply registered_kept_refl |].
  intros k i H. cbn [snd db_images with_db_images with_heap_images].
  rewrite od_set_fresh by exact Hg. apply od_get_app_l, H.
Qed.

Ltac registered_kept_steps :=
  first [ exact registered_kept_refl | exact registered_kept_trans
        | intros; apply FLDB_add_image_noindex_registered
        | intros; unfold registered_kept; simpl; intros; assumption ].

Section AddImage.

Variable rekog : list request -> request -> outcome pyval.
Variables coll bucket : pyval.

Lemma FLDB_add_image_registered_kept url index :
  preserves registered_kept (FLDB_add_image rekog coll bucket url index).
Proof.
  apply FLDB_add_image_respects; registered_kept_steps.
Qed.

(** the indexing that [add_image] goes on with *)
Lemma add_image_indexing_registered image (index : bool) :
  preserves registered_kept
    (if index then
       fs <- Image_get_faces rekog coll bucket image ;;
       upd <- dict_comp (fun x => o <- deref heap_faces x ;;
                                  ret (face_fid o)) ret fs ;;
       modify (fun s => with_db_faces (od_update (db_faces s) upd) s)
     else ret tt).
Proof.
  frame_with ltac:(first [ exact registered_kept_refl
                         | exact registered_kept_trans ]);
    first [ apply Image_get_faces_respects; registered_kept_steps
          | registered_kept_steps ].
Qed.

(** the path is registered, for the Image returned, when [add_image]
    returns *)
Lemma FLDB_add_image_registers url index s i s1 :
  FLDB_add_image rekog coll bucket url index s = (Ret i, s1) ->
  hashable url = true /\ od_get url (db_images s) = None /\
  od_get url (db_images s1) = Some i.
Proof.
  intros H. unfold FLDB_add_image in H.
  pose proof H as Hsplit. rewrite FLDB_add_image__split in Hsplit.
  rewrite FLDB_add_image_noindex_run in Hsplit.
  destruct (hashable url) eqn:Hh; [| discriminate].
  unfold od_mem in Hsplit.
  destruct (od_get url (db_images s)) eqn:Hg; [discriminate |].
  repeat split.
  apply bind_Ret in Hsplit as ([] & s2 & Hrest & Hret).
  unfold ret in Hret. injection Hret as <- <-.
  set (s0 := with_db_images _ _) in Hrest.
  assert (H0 : od_get url (db_images s0) = Some (length (heap_images s))).
  { unfold s0. cbn [db_images with_db_images]. apply od_get_set, Hh. }
  pose proof (add_image_indexing_registered (length (heap_images s)) index
                s0) as Hk.
  rewrite Hrest in Hk.
  apply Hk, H0.
Qed.

End AddImage.

(** X11.  After [add_image] of a path has returned an Image, with or
    without indexing, another [add_image] of that path fails on its
    assertion and changes nothing, and [get_image] of the path returns
    that Image, changing nothing. *)
Theorem X11_add_image_registers rekog coll bucket url index s i s1 :
  FLDB_add_image rekog coll bucket url index s = (Ret i, s1) ->
  (forall index', FLDB_add_image rekog coll bucket url index' s1
                  = (Raise AssertionError, s1)) /\
  (forall create, FLDB_get_image url create s1 = (Ret i, s1)).
Proof.
  intros H.
  destruct (FLDB_add_image_registers _ _ _ _ _ _ _ _ H) as (Hh & _ & Hg).
  split.
  - intros index'. unfold FLDB_add_image. rewrite FLDB_add_image__split.
    rewrite FLDB_add_image_noindex_run, Hh. unfold od_mem. rewrite Hg.
    reflexivity.
  - intros create. rewrite FLDB_get_image_run, Hh, Hg. reflexivity.
Qed.

Lemma X11_witness :
  FLDB_add_image ex_rekog ex_coll ex_bucket (VStr "solo.jpg") false ex_solo
  = (Raise AssertionError, ex_solo) /\
  FLDB_get_image (VStr "solo.jpg") false ex_solo = (Ret 0, ex_solo).
Proof.
  destruct (X11_add_image_registers ex_rekog ex_coll ex_bucket
              (VStr "solo.jpg") true empty_state 0 ex_solo) as [Hadd Hget].
  - vm_compute. reflexivity.
  - split; [apply Hadd | apply Hget].
Defined.

(** ** Indexing an image *)

Lemma lift_run {A} (o : outcome A) s a s' :
  lift o s = (Ret a, s') -> o = Ret a /\ s' = s.
Proof. unfold lift. intros H. injection H as -> ->. auto. Qed.





(** [get_image] with [create]: the Image it returns is registered under
    the path; no Face moves, no path is lost, no backend call is made *)
Lemma FLDB_get_image_create_run url s i s0 :
  FLDB_get_image url true s = (Ret i, s0) ->
  od_get url (db_images s0) = Some i /\
  heap_faces s0 = heap_faces s /\ db_faces s0 = db_faces s /\
  calls s0 = calls s /\ registered_kept s s0 /\ images_kept s s0.
Proof.
  rewrite FLDB_get_image_run. destruct (hashable url) eqn:Hh; [| discriminate].
  destruct (od_get url (db_images s)) as [i'|] eqn:Hg.
  - intros H. injection H as <- <-.
    repeat split; auto using registered_kept_refl, images_kept_refl.
  - rewrite FLDB_add_image_noindex_run, Hh. unfold od_mem. rewrite Hg.
    intros H. injection H as <- <-.
    cbn [db_images heap_faces db_faces calls with_db_images with_heap_images].
    repeat split.
    + apply od_get_set, Hh.
    + intros k j Hk. cbn [db_images with_db_images].
      rewrite od_set_fresh by exact Hg. apply od_get_app_l, Hk.
    + intros j o Hj. cbn [heap_images with_db_images with_heap_images].
      apply lookup_app_l_Some, Hj.
Qed.

(** [Face.__init__] without an Image: one Face is made, the next of the
    heap *)
Lemma Face_init_run fulldata s f s1 :
  Face_init fulldata None s = (Ret f, s1) ->
  exists fid ext img s0,
    record_fid fulldata = Ret fid /\ record_image fulldata = Ret ext /\
    FLDB_get_image ext true s = (Ret img, s0) /\
    f = length (heap_faces s0) /\
    s1 = with_heap_faces
           (heap_faces s0 ++ [mkFace fid fulldata img None None]) s0.
Proof.
  unfold Face_init. intros H.
  apply bind_Ret in H as (fid & s0 & Hfid & H).
  apply lift_run in Hfid as [Hfid ->].
  apply bind_Ret in H as (img & s2 & Himg & H).
  apply bind_Ret in Himg as (fc & s3 & Hfc & Himg).
  apply lift_run in Hfc as [Hfc ->].
  apply bind_Ret in Himg as (ext & s4 & Hext & Himg).
  apply lift_run in Hext as [Hext ->].
  unfold new_face in H. injection H as <- <-.
  exists fid, ext, img, s2. unfold record_fid, record_image.
  rewrite Hfc, Hext. rewrite Hfc in Hfid. auto.
Qed.

Lemma made_from_kept s s' f record :
  made_from s f record -> faces_kept s s' -> registered_kept s s' ->
  made_from s' f record.
Proof.
  intros (fid & ext & img & Hfid & Hext & Hg & Hf) Hfaces Hreg.
  exists fid, ext, img. auto.
Qed.

(** the Faces of the list comprehension of [index_faces]: one new Face
    for each record, in the order of the records *)
Lemma Face_init_mapM items : forall s fs s1,
  mapM (fun x => Face_init x None) items s = (Ret fs, s1) ->
  fs = seq (length (heap_faces s)) (length items) /\
  length (heap_faces s1) = length (heap_faces s) + length items /\
  Forall2 (made_from s1) fs items /\
  faces_kept s s1 /\ registered_kept s s1 /\ images_kept s s1 /\
  calls s1 = calls s /\ db_faces s1 = db_faces s.
Proof.
  induction items as [|x items IH]; intros s fs s1 H; simpl in H.
  - unfold ret in H. injection H as <- <-. simpl.
    repeat split; auto using faces_kept_refl, registered_kept_refl,
      images_kept_refl.
  - apply bind_Ret in H as (f & s' & Hf & H).
    apply bind_Ret in H as (ys & s2 & Hys & H).
    unfold ret in H. injection H as <- <-.
    apply Face_init_run in Hf
      as (fid & ext & img & s0 & Hfid & Hext & Himg & -> & ->).
    apply FLDB_get_image_create_run in Himg
      as (Hg & Hfaces & Hdb & Hcalls & Hreg & Himgs).
    destruct (IH _ _ _ Hys) as (-> & Hlen & Hmade & Hk & Hr & Hi & Hc & Hd).
    cbn [heap_faces with_heap_faces calls db_faces] in *.
    rewrite length_app in *. simpl in *. rewrite Hfaces in *.
    rewrite Nat.add_1_r in *.
    repeat split.
    + lia.
    + constructor; [| exact Hmade].
      apply (made_from_kept
               (with_heap_faces
                  (heap_faces s ++ [mkFace fid x img None None]) s0));
        [| exact Hk | exact Hr].
      exists fid, ext, img. repeat split; auto.
      cbn [heap_faces with_heap_faces]. apply list_lookup_middle.
      reflexivity.
    + intros g o Hgo. apply Hk. cbn [heap_faces with_heap_faces].
      apply lookup_app_l_Some, Hgo.
    + intros k j Hk'. apply Hr, Hreg, Hk'.
    + intros j o Hj. apply Hi, Himgs, Hj.
    + congruence.
    + congruence.
Qed.

Section Indexing.

Variable rekog : list request -> request -> outcome pyval.
Variables coll bucket : pyval.

Lemma FLDB_index_faces_run image s fs s1 :
  FLDB_index_faces rekog coll bucket image s = (Ret fs, s1) ->
  exists im resp recs items,
    heap_images s !! image = Some im /\
    rekog (calls s) (index_request coll bucket (image_url im)) = Ret resp /\
    subscript resp "FaceRecords" = Ret recs /\ py_iter recs = Ret items /\
    mapM (fun x => Face_init x None) items
      (with_calls (calls s ++ [index_request coll bucket (image_url im)]) s)
    = (Ret fs, s1).
Proof.
  unfold FLDB_index_faces. intros H.
  apply bind_Ret in H as (im & s0 & Him & H). unfold deref in Him.
  destruct (heap_images s !! image) as [im'|] eqn:Hi; [| discriminate].
  injection Him as -> ->.
  apply bind_Ret in H as (recs & s2 & Hrecs & H).
  apply bind_Ret in H as (items & s3 & Hit & H).
  apply lift_run in Hit as [Hit ->].
  unfold FLDB__index_faces in Hrecs.
  apply bind_Ret in Hrecs as (resp & s4 & Hc & Hrecs).
  apply lift_run in Hrecs as [Hrecs ->].
  unfold call_rekog in Hc. injection Hc as Hc <-.
  exists im, resp, recs, items. auto.
Qed.


End Indexing.

(** X12.  When [index_faces] returns, it has made exactly one detection
    request, for the path of the Image, and has made one new Face for each
    record of the response, in the order of the records, whether or not a
    Face with that identifier was known: the Faces are the next ones of the
    heap.  Each Face carries its record and the identifier
    [record['Face']['FaceId']], has no similarity list and no Person, and
    belongs to the Image registered under [record['Face']['ExternalImageId']]
    (not to the Image that was indexed, unless the record names its path).
    The Faces that existed are as they were, and the face mapping is not
    touched. *)
Theorem X12_index_faces_makes_faces rekog coll bucket image s fs s1 :
  FLDB_index_faces rekog coll bucket image s = (Ret fs, s1) ->
  exists im resp recs items,
    heap_images s !! image = Some im /\
    rekog (calls s) (index_request coll bucket (image_url im)) = Ret resp /\
    subscript resp "FaceRecords" = Ret recs /\ py_iter recs = Ret items /\
    calls s1 = calls s ++ [index_request coll bucket (image_url im)] /\
    fs = seq (length (heap_faces s)) (length items) /\
    Forall2 (made_from s1) fs items /\
    faces_kept s s1 /\ db_faces s1 = db_faces s.
Proof.
  intros H.
  apply FLDB_index_faces_run in H
    as (im & resp & recs & items & Him & Hresp & Hrecs & Hitems & H).
  apply Face_init_mapM in H
    as (Hfs & _ & Hmade & Hkept & _ & _ & Hcalls & Hdb).
  exists im, resp, recs, items. repeat split; assumption.
Qed.

Lemma X12_witness :
  exists im resp recs items,
    heap_images ex_solo !! 0 = Some im /\
    ex_rekog (calls ex_solo) (index_request ex_coll ex_bucket (image_url im))
    = Ret resp /\
    subscript resp "FaceRecords" = Ret recs /\ py_iter recs = Ret items /\
    calls (snd (FLDB_index_faces ex_rekog ex_coll ex_bucket 0 ex_solo))
    = calls ex_solo ++ [index_request ex_coll ex_bucket (image_url im)] /\
    [1] = seq (length (heap_faces ex_solo)) (length items) /\
    Forall2 (made_from (snd (FLDB_index_faces ex_rekog ex_coll ex_bucket 0
                               ex_solo))) [1] items /\
    faces_kept ex_solo
      (snd (FLDB_index_faces ex_rekog ex_coll ex_bucket 0 ex_solo)) /\
    db_faces (snd (FLDB_index_faces ex_rekog ex_coll ex_bucket 0 ex_solo))
    = db_faces ex_solo.
Proof.
  apply (X12_index_faces_makes_faces ex_rekog ex_coll ex_bucket 0 ex_solo).
  vm_compute. reflexivity.
Defined.



(** ** Listing the collection *)

(** every key of a dictionary comprehension is the key computed for one of
    the items *)
Lemma dict_comp_keys {A V} (key : A -> M pyval) (value : A -> M V) l :
  forall acc s d s',
    foldM (fun acc x => k <- key x ;; v <- value x ;; py_setitem k v acc)
          acc l s = (Ret d, s') ->
    forall k, In k (od_keys d) ->
      In k (od_keys acc) \/
      exists x s0 s0', In x l /\ key x s0 = (Ret k, s0').
Proof.
  induction l as [|x l IH]; intros acc s d s' H k Hk; simpl in H.
  - unfold ret in H. injection H as <- _. auto.
  - apply bind_Ret in H as (acc' & s1 & H1 & H2).
    apply bind_Ret in H1 as (k0 & s2 & Hk0 & H1).
    apply bind_Ret in H1 as (v & s3 & _ & H1).
    unfold py_setitem in H1. destruct (hashable k0); [| discriminate].
    unfold ret in H1. injection H1 as <- _.
    destruct (IH _ _ _ _ H2 k Hk) as [Hacc | (y & sa & sb & Hy & Hkey)].
    + apply od_set_keys in Hacc as [-> | Hacc]; [| auto].
      right. exists x, s, s2. split; [left; reflexivity | exact Hk0].
    + right. exists y, sa, sb. split; [right; exact Hy | exact Hkey].
Qed.

(** the refreshing of [list_faces], after the listing request *)
Lemma list_faces_refresh_no_call resp :
  preserves no_call
    (items <- lift (py_iter resp) ;;
     d <- dict_comp (fun x => lift (subscript x "FaceId"))
                    (fun x => Face_init x None) items ;;
     modify (with_db_faces d)).
Proof.
  frame_with ltac:(first [ exact (fun s => eq_refl (calls s))
                         | exact no_call_trans ]);
    first [ apply Face_init_no_call | intros; reflexivity ].
Qed.

(** X14.  [list_faces] without [refresh] returns the identifiers of the
    face mapping and changes nothing.  With [refresh] it makes exactly one
    listing request, returning or raising.  Where the response is a
    dictionary that is not empty, as a listing with its ['Faces'] entry is,
    it raises TypeError and leaves the face mapping as it was: the response
    itself is iterated, and its items are then the keys, strings.  Where it
    returns, the face mapping has been replaced, and every identifier
    returned is the ['FaceId'] of an item of the response. *)
Theorem X14_list_faces_refresh rekog coll s :
  FLDB_list_faces rekog coll false s = (Ret (od_keys (db_faces s)), s) /\
  calls (snd (FLDB_list_faces rekog coll true s))
  = calls s ++ [list_request coll] /\
  (forall k v d,
     rekog (calls s) (list_request coll) = Ret (VDict ((k, v) :: d)) ->
     FLDB_list_faces rekog coll true s
     = (Raise (TypeError "string indices must be integers"),
        with_calls (calls s ++ [list_request coll]) s)) /\
  (forall keys s1,
     FLDB_list_faces rekog coll true s = (Ret keys, s1) ->
     exists resp items,
       rekog (calls s) (list_request coll) = Ret resp /\
       py_iter resp = Ret items /\ keys = od_keys (db_faces s1) /\
       forall k, In k keys ->
         exists x, In x items /\ subscript x "FaceId" = Ret k).
Proof.
  split; [reflexivity |]. split; [| split].
  - unfold FLDB_list_faces. unfold bind at 1. unfold bind at 1.
    unfold call_rekog at 1. fold (list_request coll).
    destruct (rekog (calls s) (list_request coll)) as [resp|e];
      [| reflexivity].
    match goal with
    | |- calls (snd (match ?m ?s0 with _ => _ end)) = _ =>
        pose proof (list_faces_refresh_no_call resp s0) as H;
        change (no_call s0 (snd (m s0))) in H;
        destruct (m s0) as [[[] | e'] s2]; exact H
    end.
  - intros k v d H. unfold FLDB_list_faces, call_rekog, bind.
    fold (list_request coll). rewrite H. reflexivity.
  - intros keys s1 H. unfold FLDB_list_faces in H.
    apply bind_Ret in H as ([] & s2 & H & Hkeys).
    unfold bind, read, ret in Hkeys. injection Hkeys as <- <-.
    apply bind_Ret in H as (resp & s3 & Hc & H).
    unfold call_rekog in Hc. fold (list_request coll) in Hc.
    injection Hc as Hc <-.
    apply bind_Ret in H as (items & s4 & Hit & H).
    apply lift_run in Hit as [Hit ->].
    apply bind_Ret in H as (d & s5 & Hd & H).
    unfold modify in H. injection H as <-.
    exists resp, items. repeat split; try assumption.
    cbn [db_faces with_db_faces]. intros k Hk.
    unfold dict_comp in Hd.
    destruct (dict_comp_keys _ _ _ _ _ _ _ Hd k Hk)
      as [[] | (x & sa & sb & Hx & Hkey)].
    exists x. split; [exact Hx |]. apply lift_run in Hkey as [Hkey _].
    exact Hkey.
Qed.

Lemma X14_witness :
  FLDB_list_faces ex_rekog ex_coll true ex_group
  = (Raise (TypeError "string indices must be integers"),
     with_calls (calls ex_group ++ [list_request ex_coll]) ex_group).
Proof.
  destruct (X14_list_faces_refresh ex_rekog ex_coll ex_group)
    as (_ & _ & Hdict & _).
  eapply Hdict. vm_compute. reflexivity.
Defined.

(** ** Searching for similar Faces *)

(** [get_face] of a match whose face record has no ['Face'] entry: the
    Face is looked up, none is made *)
Lemma FLDB_get_face_bare data s f s' e :
  subscript data "Face" = Raise e ->
  FLDB_get_face VNone data true s = (Ret f, s') ->
  s' = s /\
  exists fid, subscript data "FaceId" = Ret fid /\
              od_get fid (db_faces s) = Some f.
Proof.
  intros He. unfold FLDB_get_face, Face_init, py_contains, py_getitem,
    od_mem, bind, lift, ret, read, raise.
  cbn [truthy negb andb]. rewrite He.
  destruct (subscript data "FaceId") as [fid|e']; [| discriminate].
  destruct (truthy data), (hashable fid); try discriminate;
    destruct (od_get fid (db_faces s)) as [f'|] eqn:Hg; cbn [negb];
    rewrite ?Hg; try discriminate;
    intros H; injection H as <- <-; eauto.
Qed.

Section Search.

Variable rekog : list request -> request -> outcome pyval.
Variable coll : pyval.

Lemma FLDB_search_faces_run face s l s1 :
  FLDB_search_faces rekog coll face s = (Ret l, s1) ->
  exists o resp ms items,
    heap_faces s !! face = Some o /\
    rekog (calls s) (search_request coll o) = Ret resp /\
    subscript resp "FaceMatches" = Ret ms /\ py_iter ms = Ret items /\
    mapM (fun x =>
            data <- lift (subscript x "Face") ;;
            f <- FLDB_get_face VNone data true ;;
            raw <- lift (subscript x "Similarity") ;;
            sim <- lift (div100 raw) ;;
            ret (f, sim)) items
      (with_calls (calls s ++ [search_request coll o]) s) = (Ret l, s1).
Proof.
  unfold FLDB_search_faces. intros H.
  apply bind_Ret in H as (o & s0 & Ho & H). unfold deref in Ho.
  destruct (heap_faces s !! face) as [o'|] eqn:Hf; [| discriminate].
  injection Ho as -> ->.
  apply bind_Ret in H as (ms & s2 & Hms & H).
  apply bind_Ret in H as (items & s3 & Hit & H).
  apply lift_run in Hit as [Hit ->].
  unfold FLDB__search_faces in Hms.
  apply bind_Ret in Hms as (resp & s4 & Hc & Hms).
  apply lift_run in Hms as [Hms ->].
  unfold call_rekog in Hc. fold (search_request coll o) in Hc.
  injection Hc as Hc <-.
  exists o, resp, ms, items. auto.
Qed.

Lemma search_matches_known items : forall s0 l s1,
  (forall x data, In x items -> subscript x "Face" = Ret data ->
     exists e, subscript data "Face" = Raise e) ->
  mapM (fun x =>
          data <- lift (subscript x "Face") ;;
          f <- FLDB_get_face VNone data true ;;
          raw <- lift (subscript x "Similarity") ;;
          sim <- lift (div100 raw) ;;
          ret (f, sim)) items s0 = (Ret l, s1) ->
  s1 = s0 /\
  Forall2 (fun x r =>
             exists data fid raw,
               subscript x "Face" = Ret data /\
               subscript data "FaceId" = Ret fid /\
               od_get fid (db_faces s0) = Some (fst r) /\
               subscript x "Similarity" = Ret (VNum raw) /\
               snd r = (raw / 100)%Q) items l.
Proof.
  induction items as [|x items IH]; intros s0 l s1 Hbare H; simpl in H.
  - unfold ret in H. injection H as <- <-. split; constructor.
  - apply bind_Ret in H as (r & s2 & Hr & H).
    apply bind_Ret in H as (rs & s3 & Hrs & H).
    unfold ret in H. injection H as <- <-.
    apply bind_Ret in Hr as (data & s4 & Hdata & Hr).
    apply lift_run in Hdata as [Hdata ->].
    apply bind_Ret in Hr as (f & s5 & Hf & Hr).
    apply bind_Ret in Hr as (raw & s6 & Hraw & Hr).
    apply lift_run in Hraw as [Hraw ->].
    apply bind_Ret in Hr as (sim & s7 & Hsim & Hr).
    apply lift_run in Hsim as [Hsim ->].
    unfold ret in Hr. injection Hr as <- <-.
    destruct (Hbare x data (or_introl eq_refl) Hdata) as (e & He).
    destruct (FLDB_get_face_bare _ _ _ _ _ He Hf) as (-> & fid & Hfid & Hg).
    destruct (IH _ _ _ (fun y d Hy => Hbare y d (or_intror Hy)) Hrs)
      as (-> & Hall).
    split; [reflexivity |]. constructor; [| exact Hall].
    destruct raw; try discriminate Hsim. injection Hsim as <-.
    exists data, fid, q. auto.
Qed.

End Search.

(** X15.  Where no match of the response carries a ['Face'] entry inside
    its face record (the records of a search are the inner face records),
    a [search_faces] that returns has made no Face and changed nothing but
    the call log, which has the one search request more: each pair is the
    Face registered under the ['FaceId'] of its match, which was in the
    face mapping before, with the similarity of the match divided by 100,
    in the order of the matches. *)
Theorem X15_search_faces_resolves_known
    rekog coll face s o resp ms items l s1 :
  heap_faces s !! face = Some o ->
  rekog (calls s) (search_request coll o) = Ret resp ->
  subscript resp "FaceMatches" = Ret ms -> py_iter ms = Ret items ->
  (forall x data, In x items -> subscript x "Face" = Ret data ->
     exists e, subscript data "Face" = Raise e) ->
  FLDB_search_faces rekog coll face s = (Ret l, s1) ->
  s1 = with_calls (calls s ++ [search_request coll o]) s /\
  Forall2 (fun x r =>
             exists data fid raw,
               subscript x "Face" = Ret data /\
               subscript data "FaceId" = Ret fid /\
               od_get fid (db_faces s) = Some (fst r) /\
               subscript x "Similarity" = Ret (VNum raw) /\
               snd r = (raw / 100)%Q) items l.
Proof.
  intros Hf Hresp Hms Hitems Hbare H.
  apply FLDB_search_faces_run in H
    as (o' & resp' & ms' & items' & Hf' & Hresp' & Hms' & Hitems' & H).
  rewrite Hf in Hf'. injection Hf' as <-.
  rewrite Hresp in Hresp'. injection Hresp' as <-.
  rewrite Hms in Hms'. injection Hms' as <-.
  rewrite Hitems in Hitems'. injection Hitems' as <-.
  apply search_matches_known in H as [-> Hall]; [| exact Hbare].
  split; [reflexivity | exact Hall].
Qed.

Lemma X15_witness :
  snd (FLDB_search_faces ex_rekog ex_coll 0 ex_group)
  = with_calls (calls ex_group
                ++ [search_request ex_coll
                      (mkFace (VStr "A") (ex_record "A" "group.jpg") 0
                              None None)]) ex_group /\
  Forall2 (fun x r =>
             exists data fid raw,
               subscript x "Face" = Ret data /\
               subscript data "FaceId" = Ret fid /\
               od_get fid (db_faces ex_group) = Some (fst r) /\
               subscript x "Similarity" = Ret (VNum raw) /\
               snd r = (raw / 100)%Q)
          [ex_match "C" "group.jpg" 80] [(2, (80 / 100)%Q)].
Proof.
  apply (X15_search_faces_resolves_known ex_rekog ex_coll 0 ex_group
           (mkFace (VStr "A") (ex_record "A" "group.jpg") 0 None None)
           (VDict [("FaceMatches", VList [ex_match "C" "group.jpg" 80])])
           (VList [ex_match "C" "group.jpg" 80])
           [ex_match "C" "group.jpg" 80]).
  - vm_compute. reflexivity.
  - vm_compute. reflexivity.
  - reflexivity.
  - reflexivity.
  - intros x data [<- | []] Hdata. vm_compute in Hdata.
    injection Hdata as <-. eexists. vm_compute. reflexivity.
  - vm_compute. reflexivity.
Defined.

(** ** The Person of a Face *)

(** X16.  [get_person] of a confirmed Face returns its Person at 1 and
    changes nothing, the backend not being called.  Of a Face that is not
    confirmed it never returns a guess: it does what [get_similar] does
    and then returns the empty list where the similarity list is empty,
    and raises AttributeError where it is not, the filter reading the
    attribute [persom] of the first pair's Face. *)
Theorem X16_get_person_no_guess rekog coll face s o :
  heap_faces s !! face = Some o ->
  (forall p, face_person o = Some p ->
     Face_get_person rekog coll face s = (Ret [(Some p, 1%Q)], s)) /\
  (face_person o = None ->
   forall r s1, Face_get_similar rekog coll face false s = (r, s1) ->
     Face_get_person rekog coll face s
     = (match r with
        | Ret [] => Ret []
        | Ret (_ :: _) => Raise (AttributeError "Face" "persom")
        | Raise e => Raise e
        end, s1)).
Proof.
  intros Hf. split.
  - intros p Hp. unfold Face_get_person. unfold bind at 1. unfold deref.
    rewrite Hf, Hp. reflexivity.
  - intros Hp r s1 Hsim. unfold Face_get_person. unfold bind at 1.
    unfold deref at 1. rewrite Hf, Hp. unfold bind at 1. rewrite Hsim.
    destruct r as [[|x l]|e]; reflexivity.
Qed.

Lemma X16_witness :
  Face_get_person ex_rekog ex_coll 2 ex_candidate_confirmed
  = (Ret [(Some 0, 1%Q)], ex_candidate_confirmed) /\
  Face_get_person ex_rekog ex_coll 1 ex_candidate_confirmed
  = (Raise (AttributeError "Face" "persom"),
     snd (Face_get_similar ex_rekog ex_coll 1 false ex_candidate_confirmed)).
Proof.
  destruct (X16_get_person_no_guess ex_rekog ex_coll 2
              ex_candidate_confirmed
              (mkFace (VStr "C") (ex_record "C" "group.jpg") 0 None
                      (Some 0))) as [Hconfirmed _];
    [vm_compute; reflexivity |].
  destruct (X16_get_person_no_guess ex_rekog ex_coll 1
              ex_candidate_confirmed
              (mkFace (VStr "B") (ex_record "B" "group.jpg") 0 None None))
    as [_ Hopen]; [vm_compute; reflexivity |].
  split.
  - apply Hconfirmed. reflexivity.
  - apply (Hopen eq_refl
             (Ret [(2, (60 / 100)%Q)])
             (snd (Face_get_similar ex_rekog ex_coll 1 false
                     ex_candidate_confirmed))).
    vm_compute. reflexivity.
Defined.
